(** * The signal heuristics of the holistic overlay

    A shallow embedding of [src/finger-counter/src/App.jsx]: the geometric
    helpers ([distance], [computeEAR], [countFingersFromHand]), the per-frame
    results handler ([onResults]) with the two refs it keeps between frames,
    the status panel drawn on the canvas ([drawHUD]), and the way the
    component registers the handler once, on mount.

    JavaScript numbers are IEEE 754 binary64 values: they are modelled by
    Rocq's primitive floats, whose operations the kernel evaluates and whose
    specification ([FloatAxioms]) is the binary64 one.  An array is a list, a
    read [a[i]] is the partial lookup [a !! i], and reading a property of
    [undefined] raises a [TypeError], modelled by [None] in the option monad;
    [try { ... } catch (e) { return d }] is [default d]. *)

From Stdlib Require Import Floats ZArith DecimalString.
From stdpp Require Import base option list strings.

Set Warnings "-inexact-float".
Local Open Scope float_scope.

(** ** JavaScript numbers *)

(** [a > b] on numbers: false as soon as one side is NaN. *)
Definition JS_gt (a b : float) : bool := b <? a.
Infix ">?" := JS_gt (at level 70, no associativity) : float_scope.

(** [Math.max(a, b)]: NaN if either argument is NaN, and [+0] is larger
    than [-0]. *)
Definition Math_max (a b : float) : float :=
  if is_nan a || is_nan b then nan
  else if a <? b then b
  else if b <? a then a
  else if get_sign a then b else a.

Definition Math_abs (a : float) : float := abs a.

(** [Math.sqrt], taken to be the correctly rounded square root. *)
Definition Math_sqrt (a : float) : float := sqrt a.

(** An array length used as a number ([x / mBuf.length]). *)
Definition number (n : nat) : float := of_uint63 (Uint63.of_Z (Z.of_nat n)).

(** [`${n}`] for an integer-valued number. *)
Definition String_of (n : Z) : string := NilZero.string_of_int (Z.to_int n).

(** ** Landmarks *)

(** A landmark as the handler reads it: only [x] and [y] are used. *)
Record Landmark := mkLandmark { lm_x : float; lm_y : float }.

Global Instance Landmark_inhabited : Inhabited Landmark :=
  populate (mkLandmark 0 0).

(** Lines 90-99: the face-mesh indices. *)
Definition RIGHT_EYE : list nat := [33; 160; 158; 133; 153; 144]%nat.
Definition LEFT_EYE : list nat := [362; 385; 387; 263; 373; 380]%nat.
Definition MOUTH_UP : nat := 13.
Definition MOUTH_DOWN : nat := 14.
Definition FACE_LEFT : nat := 234.
Definition FACE_RIGHT : nat := 454.

(** Lines 191-195. *)
Definition distance (a b : Landmark) : float :=
  let dx := lm_x a - lm_x b in
  let dy := lm_y a - lm_y b in
  Math_sqrt (dx * dx + dy * dy).

(** [face[indices[k]]]: [undefined] when either read is out of range. *)
Definition at_index (face : list Landmark) (indices : list nat) (k : nat)
  : option Landmark :=
  indices !! k ≫= λ i, face !! i.

(** Lines 200-207, the body of the [try]: [None] when a landmark is
    [undefined] and [distance] raises on it. *)
Definition computeEAR_body (face : list Landmark) (indices : list nat)
  : option float :=
  p1 ← at_index face indices 0;
  p2 ← at_index face indices 1;
  p3 ← at_index face indices 2;
  p4 ← at_index face indices 3;
  p5 ← at_index face indices 4;
  p6 ← at_index face indices 5;
  let A := distance p2 p6 in
  let B := distance p3 p5 in
  let C := distance p1 p4 in
  let ear := (A + B) / (2.0 * Math_max 1e-6 C) in
  Some ear.

(** Lines 198-211. *)
Definition computeEAR (face : list Landmark) (indices : list nat) : float :=
  default 0.3 (computeEAR_body face indices).

(** Lines 216-217. *)
Definition TIP : list nat := [4; 8; 12; 16; 20]%nat.
Definition PIP : list nat := [2; 6; 10; 14; 18]%nat.

(** Line 223, one turn of the loop over [i]. *)
Definition finger_step (landmarks : list Landmark) (count : Z) (i : nat)
  : option Z :=
  tip ← TIP !! i ≫= λ j, landmarks !! j;
  pip ← PIP !! i ≫= λ j, landmarks !! j;
  Some (if lm_y tip <? lm_y pip then (count + 1)%Z else count).

(** [for (let i = first; ...; i++)] over the indices listed, threading
    [count]; a raise ends the loop. *)
Fixpoint for_each (landmarks : list Landmark) (count : Z) (idxs : list nat)
  : option Z :=
  match idxs with
  | [] => Some count
  | i :: rest =>
      count' ← finger_step landmarks count i;
      for_each landmarks count' rest
  end.

(** Line 233, with JavaScript's short-circuit evaluation: [thumbIp.x] is
    read, and raises on [undefined], only when the comparison of the tip
    before it holds. *)
Definition thumb_same_side (thumbTip : Landmark) (thumbIp : option Landmark)
    (palmX : float) : option bool :=
  left_of ←
    (if lm_x thumbTip <? palmX
     then ip ← thumbIp; Some (lm_x ip <? palmX)
     else Some false);
  if left_of : bool then Some true
  else if lm_x thumbTip >? palmX
       then ip ← thumbIp; Some (lm_x ip >? palmX)
       else Some false.

(** Lines 221-238, the body of the [try]. *)
Definition countFingers_body (landmarks : list Landmark) : option Z :=
  count ← for_each landmarks 0%Z [1; 2; 3; 4]%nat;
  let thumbTip := landmarks !! 4%nat in
  let thumbIp := landmarks !! 3%nat in
  palm ← landmarks !! 0%nat;
  let palmX := lm_x palm in
  thumbTip ← thumbTip;
  if Math_abs (lm_x thumbTip - palmX) >? 0.03 then
    extended ← thumb_same_side thumbTip thumbIp palmX;
    Some (if extended : bool then (count + 1)%Z else count)
  else Some count.

(** Lines 214-242. *)
Definition countFingersFromHand (landmarks : list Landmark) : Z :=
  default 0%Z (countFingers_body landmarks).

(** ** The results handler *)

(** An element of a hand result.  The handler reads a hand result as an
    array of hands, each an array of landmarks (line 119), and takes element
    0 of it to be a hand.  The Holistic solution imported on line 3 sends a
    hand the way it sends the face, as one array of its 21 landmarks, so that
    element 0 is a landmark, an object with no [length]; JavaScript lets
    both through. *)
Inductive HandEntry :=
  | a_landmark (p : Landmark)
  | a_hand (landmarks : list Landmark).

(** What the detector hands to [onResults]; a field the detector left out is
    [None]. *)
Record Results := mkResults {
  faceLandmarks : option (list Landmark);
  leftHandLandmarks : option (list HandEntry);
  rightHandLandmarks : option (list HandEntry);
  poseLandmarks : option (list Landmark)
}.

(** An entry of the mouth buffer, [{ t: now, v: mouthOpen }]. *)
Record MouthSample := mkSample { s_t : Z; s_v : float }.

(** Lines 32-33: the refs the handler reads and writes
    ([mouthBufRef.current], [lastNoseRef.current]).  [lastTimeRef] is never
    read; [pulseRef] only feeds the animation of the landmark overlay. *)
Record Refs := mkRefs {
  mouthBufRef : list MouthSample;
  lastNoseRef : option Landmark
}.

Definition initialRefs : Refs := mkRefs [] None.

(** The argument of each state setter the handler calls on a frame;
    [setMoving] is not called on every path. *)
Record Signals := mkSignals {
  setFingerCount : Z;
  setRightEyeOpen : bool;
  setLeftEyeOpen : bool;
  setSpeaking : bool;
  setMoving : option bool
}.

(** Lines 124-126: element 0 of the right hand result if that result is a
    non-empty array, else element 0 of the left one. *)
Definition handLandmarks (results : Results) : option HandEntry :=
  match rightHandLandmarks results with
  | Some (h :: _) => Some h
  | _ =>
      match leftHandLandmarks results with
      | Some (h :: _) => Some h
      | _ => None
      end
  end.

(** Lines 129-133: [handLandmarks && handLandmarks.length === 21].  A
    landmark has no [length], and [undefined === 21] is false. *)
Definition fingerCount_of (results : Results) : Z :=
  match handLandmarks results with
  | Some (a_hand h) =>
      if decide (length h = 21%nat) then countFingersFromHand h else 0%Z
  | Some (a_landmark _) => 0%Z
  | None => 0%Z
  end.

(** Line 143. *)
Definition mouthOpen_of (face : list Landmark) : option float :=
  up ← face !! MOUTH_UP;
  down ← face !! MOUTH_DOWN;
  l ← face !! FACE_LEFT;
  r ← face !! FACE_RIGHT;
  Some (distance up down / Math_max 1e-6 (distance l r)).

(** Lines 147-148: [if (mBuf.length > 30) mBuf.shift(); mBuf.push(...)]. *)
Definition push_sample (mBuf : list MouthSample) (s : MouthSample)
  : list MouthSample :=
  (if decide (30 < length mBuf)%nat then drop 1 mBuf else mBuf) ++ [s].

(** Line 152. *)
Definition avg_of (mBuf : list MouthSample) : float :=
  fold_left (λ s x, s + s_v x) mBuf 0 / number (length mBuf).

(** Line 153: [mBuf.slice(1).map((x, i) => Math.abs(x.v - mBuf[i].v))]. *)
Definition diffs_of (mBuf : list MouthSample) : option (list float) :=
  mapM (λ '(i, x), prev ← mBuf !! i; Some (Math_abs (s_v x - s_v prev)))
       (imap pair (drop 1 mBuf)).

(** Line 154. *)
Definition meanDiff_of (diffs : list float) : float :=
  if decide (length diffs = 0%nat) then 0
  else fold_left (λ s d, s + d) diffs 0 / number (length diffs).

(** Lines 136-160: the eye and mouth signals and the new mouth buffer, as
    [(mBuf, rightEyeOpen, leftEyeOpen, speaking)]. *)
Definition faceSignals (face : option (list Landmark)) (now : Z)
    (mBuf : list MouthSample)
  : option (list MouthSample * bool * bool * bool) :=
  match face with
  | Some face =>
      if decide (468 ≤ length face)%nat then
        let rightEAR := computeEAR face RIGHT_EYE in
        let leftEAR := computeEAR face LEFT_EYE in
        mouthOpen ← mouthOpen_of face;
        let mBuf := push_sample mBuf (mkSample now mouthOpen) in
        let avg := avg_of mBuf in
        diffs ← diffs_of mBuf;
        let meanDiff := meanDiff_of diffs in
        Some (mBuf, rightEAR >? 0.20, leftEAR >? 0.20,
              (avg >? 0.03) && (meanDiff >? 0.008))
      else Some (mBuf, true, true, false)
  | None => Some (mBuf, true, true, false)
  end.

(** Lines 163-169. *)
Definition nose_of (results : Results) : option Landmark :=
  match poseLandmarks results with
  | Some (p :: _) => Some p
  | _ =>
      match faceLandmarks results with
      | Some face => if decide (1 < length face)%nat then face !! 1%nat else None
      | None => None
      end
  end.

(** Lines 171-182: the argument of [setMoving], if it is called, and the
    new [lastNoseRef.current]. *)
Definition movement (nose prev : option Landmark)
  : option bool * option Landmark :=
  match nose with
  | Some nose =>
      (match prev with
       | Some prev =>
           let dx := Math_abs (lm_x nose - lm_x prev) in
           let dy := Math_abs (lm_y nose - lm_y prev) in
           let speed := Math_sqrt (dx * dx + dy * dy) in
           Some (speed >? 0.003)
       | None => None
       end,
       Some (mkLandmark (lm_x nose) (lm_y nose)))
  | None => (Some false, prev)
  end.

(** ** The status panel *)

(** The calls on the 2D context that [drawHUD] and [roundRect] make, in
    order; an assignment to a context property is a call of its setter. *)
Inductive CanvasOp :=
  | ctx_save
  | ctx_restore
  | ctx_globalAlpha (a : float)
  | ctx_fillStyle (style : string)
  | ctx_font (font : string)
  | ctx_beginPath
  | ctx_moveTo (x y : float)
  | ctx_arcTo (x1 y1 x2 y2 r : float)
  | ctx_closePath
  | ctx_fill
  | ctx_stroke
  | ctx_fillText (text : string) (x y : float).

(** Lines 24-29: the values one call of the component function binds, and
    that every function declared in that call closes over. *)
Record Render := mkRender {
  theme : string;
  fingerCount : Z;
  leftEyeOpen : bool;
  rightEyeOpen : bool;
  speaking : bool;
  moving : bool
}.

(** The arguments of [useState] on lines 24-29. *)
Definition initialRender : Render :=
  mkRender "dark" 0 true true false false.

(** Lines 406-416. *)
Definition roundRect (x y w h r : float) (fill stroke : bool) : list CanvasOp :=
  [ctx_beginPath;
   ctx_moveTo (x + r) y;
   ctx_arcTo (x + w) y (x + w) (y + h) r;
   ctx_arcTo (x + w) (y + h) x (y + h) r;
   ctx_arcTo x (y + h) x y r;
   ctx_arcTo x y (x + w) y r;
   ctx_closePath]
  ++ (if fill then [ctx_fill] else [])
  ++ (if stroke then [ctx_stroke] else []).

(** Lines 365-395; [w] is [ctx.canvas.width]. *)
Definition drawHUD (env : Render) (w : float) : list CanvasOp :=
  let dark := String.eqb (theme env) "dark" in
  let pad := 12 in
  let width := 280 in
  let height := 110 in
  let x := w - width - pad in
  let y := pad in
  [ctx_save;
   ctx_globalAlpha (if dark then 0.75 else 0.95);
   ctx_fillStyle (if dark then "#000000" else "#ffffff")]
  ++ roundRect x y width height 10 true false
  ++ [ctx_globalAlpha 1;
      ctx_fillStyle (if dark then "#fff" else "#111");
      ctx_font "14px Inter, Arial";
      ctx_fillText ("Fingers: " +:+ String_of (fingerCount env)) (x + 14) (y + 28);
      ctx_fillStyle (if leftEyeOpen env then "#0fbf5f" else "#ef5350");
      ctx_fillText ("Left eye: " +:+ (if leftEyeOpen env then "Open" else "Closed"))
                   (x + 14) (y + 50);
      ctx_fillStyle (if rightEyeOpen env then "#0fbf5f" else "#ef5350");
      ctx_fillText ("Right eye: " +:+ (if rightEyeOpen env then "Open" else "Closed"))
                   (x + 14) (y + 72);
      ctx_fillStyle (if speaking env then "#0fbf5f" else "#888");
      ctx_fillText ("Speaking: " +:+ (if speaking env then "Yes" else "No"))
                   (x + 140) (y + 28);
      ctx_fillStyle (if moving env then "#0fbf5f" else "#888");
      ctx_fillText ("Moving: " +:+ (if moving env then "Yes" else "No"))
                   (x + 140) (y + 50);
      ctx_restore].

(** The strings a list of context calls writes with [fillText]. *)
Definition texts (ops : list CanvasOp) : list string :=
  omap (λ op, match op with ctx_fillText s _ _ => Some s | _ => None end) ops.

(** Line 292. *)
Definition mouthIndices : list nat :=
  [61; 146; 91; 181; 84; 17; 314; 405; 321; 375; 291; 308]%nat.

(** Lines 257-318: the face landmarks whose [x] and [y] the overlay reads,
    without a check of the array's length. *)
Definition overlay_reads (env : Render) : list nat :=
  RIGHT_EYE ++ LEFT_EYE ++ [MOUTH_UP; MOUTH_DOWN]
  ++ (if speaking env then mouthIndices else [])
  ++ (if negb (leftEyeOpen env) || negb (rightEyeOpen env)
      then RIGHT_EYE ++ LEFT_EYE else []).

(** Lines 245-363.  Of the overlay, the calls that draw the landmarks are
    not modelled, only whether they raise before line 360 draws the status
    panel: [None] is a [TypeError] on an [undefined] face landmark.  (The
    hand is drawn only when it is an array of 21 landmarks, which are all it
    reads.) *)
Definition drawOverlay (env : Render) (face : option (list Landmark)) (w : float)
  : option (list CanvasOp) :=
  match face with
  | Some face =>
      _ ← mapM (λ i, face !! i) (overlay_reads env);
      Some (drawHUD env w)
  | None => Some (drawHUD env w)
  end.

(** ** One frame *)

(** What a call of [onResults] leaves behind: the refs, the setter calls,
    and the status panel drawn, [None] when [drawOverlay] raised before
    drawing it (the setters and the refs are done with by then). *)
Record Outcome := mkOutcome {
  refs_after : Refs;
  signals : Signals;
  hud : option (list CanvasOp)
}.

(** Lines 101-186.  [env] is the render whose [onResults] this is, [now] the
    value of [Date.now()]; the canvas is 640 wide (line 104).  The result is
    [None] if the lines that compute the signals raise. *)
Definition onResults (env : Render) (refs : Refs) (now : Z) (results : Results)
  : option Outcome :=
  let face := faceLandmarks results in
  let count := fingerCount_of results in
  '(mBuf, rightOpen, leftOpen, speak) ←
    faceSignals face now (mouthBufRef refs);
  let '(move, lastNose) := movement (nose_of results) (lastNoseRef refs) in
  Some (mkOutcome (mkRefs mBuf lastNose)
                  (mkSignals count rightOpen leftOpen speak move)
                  (drawOverlay env face 640)).

(** ** The component *)

(** React's state after the setters of a frame ran. *)
Definition apply_signals (s : Signals) (st : Render) : Render :=
  mkRender (theme st) (setFingerCount s) (setLeftEyeOpen s) (setRightEyeOpen s)
           (setSpeaking s) (default (moving st) (setMoving s)).

(** Line 424: [setTheme(t => t === "dark" ? "light" : "dark")]. *)
Definition toggle_theme (st : Render) : Render :=
  mkRender (if String.eqb (theme st) "dark" then "light" else "dark")
           (fingerCount st) (leftEyeOpen st) (rightEyeOpen st)
           (speaking st) (moving st).

(** The mounted component: React's current state, the refs, and the render
    whose [onResults] the detector holds. *)
Record App := mkApp {
  state : Render;
  refs : Refs;
  registered : Render
}.

(** Line 84: the dependency list of the effect that calls
    [holistic.onResults(onResults)] (lines 37-84); it names no value of the
    render. *)
Definition effect_deps (r : Render) : list Z := [].

(** React runs an effect after the first render and, after a later render,
    only when one of its dependencies changed. *)
Definition effect_due (previous current : Render) : bool :=
  negb (bool_decide (effect_deps previous = effect_deps current)).

(** The first render binds the initial values, and its effect hands its
    [onResults] to the detector. *)
Definition mount : App := mkApp initialRender initialRefs initialRender.

(** A later render binds the new state and declares new functions; the
    detector gets the new [onResults] only if the effect runs again. *)
Definition rerender (a : App) (st : Render) (refs : Refs) : App :=
  mkApp st refs (if effect_due (state a) st then st else registered a).

Inductive Event :=
  | Frame (now : Z) (results : Results)
  | ThemeClick.

(** One event: a frame runs the registered handler and applies its setter
    calls to the state (an exception of the handler is caught on lines
    57-62); a click on the theme button toggles the theme.  The context
    calls of the status panel drawn on the event are returned. *)
Definition step (a : App) (e : Event) : option (App * list CanvasOp) :=
  match e with
  | Frame now results =>
      out ← onResults (registered a) (refs a) now results;
      Some (rerender a (apply_signals (signals out) (state a)) (refs_after out),
            default [] (hud out))
  | ThemeClick => Some (rerender a (toggle_theme (state a)) (refs a), [])
  end.

(** The states the component reaches from [mount]. *)
Inductive reachable : App → Prop :=
  | reach_mount : reachable mount
  | reach_step a e a' ops :
      reachable a → step a e = Some (a', ops) → reachable a'.

(** Running a list of events; the panels drawn, frame by frame. *)
Fixpoint run (a : App) (es : list Event) : option (App * list (list CanvasOp)) :=
  match es with
  | [] => Some (a, [])
  | e :: es =>
      '(a', ops) ← step a e;
      '(a'', huds) ← run a' es;
      Some (a'', ops :: huds)
  end.

(** ** The heuristics as the specification words them

    These definitions follow the specification's sentences, not the code;
    the theorems below compare them with the handler. *)

(** A finger is raised when its tip is strictly above its PIP joint
    (a smaller [y]); the landmarks are read from a 21-landmark hand. *)
Definition spec_finger_up (hand : list Landmark) (tip pip : nat) : bool :=
  lm_y (hand !!! tip) <? lm_y (hand !!! pip).

(** Index, middle, ring and pinky: the tip and the PIP joint of each. *)
Definition spec_fingers : list (nat * nat) :=
  [(8, 6); (12, 10); (16, 14); (20, 18)]%nat.

(** The thumb counts when its tip is more than 0.03 away from the wrist in
    [x] and the tip and the IP joint are on the same side of the wrist. *)
Definition spec_thumb_out (hand : list Landmark) : bool :=
  let thumbTip := hand !!! 4%nat in
  let thumbIp := hand !!! 3%nat in
  let wrist := hand !!! 0%nat in
  (Math_abs (lm_x thumbTip - lm_x wrist) >? 0.03)
  && ((lm_x thumbTip <? lm_x wrist) && (lm_x thumbIp <? lm_x wrist)
      || (lm_x wrist <? lm_x thumbTip) && (lm_x wrist <? lm_x thumbIp)).

Definition spec_fingerCount (hand : list Landmark) : Z :=
  (Z.of_nat (length (List.filter (λ '(tip, pip), spec_finger_up hand tip pip)
                                 spec_fingers))
   + (if spec_thumb_out hand then 1 else 0))%Z.

(** A hand result that is an array of hands, as line 119 expects it. *)
Definition array_of_hands (hands : list (list Landmark)) : option (list HandEntry) :=
  Some (a_hand <$> hands).

(** A hand result as the Holistic solution sends it: the array of the
    hand's landmarks. *)
Definition flat_hand (hand : list Landmark) : option (list HandEntry) :=
  Some (a_landmark <$> hand).

(** The hand whose fingers are counted, of the right hands and the left
    hands detected: the right hand is preferred. *)
Definition spec_detected_hand (rhands lhands : list (list Landmark))
  : option (list Landmark) :=
  head (rhands ++ lhands).

(** The Euclidean distance between two landmarks, in the plane of the
    image: the square root of the sum of the squared differences of their
    coordinates. *)
Definition spec_distance (a b : Landmark) : float :=
  Math_sqrt ((lm_x a - lm_x b) * (lm_x a - lm_x b)
             + (lm_y a - lm_y b) * (lm_y a - lm_y b)).

(** The eye aspect ratio of six points: [A] and [B] are the two vertical
    distances, [C] the horizontal one. *)
Definition spec_EAR (p1 p2 p3 p4 p5 p6 : Landmark) : float :=
  let A := spec_distance p2 p6 in
  let B := spec_distance p3 p5 in
  let C := spec_distance p1 p4 in
  (A + B) / (2 * Math_max 1e-6 C).

(** The normalized mouth openness of a face: the distance between the inner
    lips over the clamped distance between the cheeks. *)
Definition spec_mouthOpenness (face : list Landmark) : float :=
  spec_distance (face !!! 13%nat) (face !!! 14%nat)
  / Math_max 1e-6 (spec_distance (face !!! 234%nat) (face !!! 454%nat)).

(** The mean of a list of numbers, summed in order from 0. *)
Definition spec_mean (vs : list float) : float :=
  fold_left (λ s d, s + d) vs 0 / number (length vs).

(** The absolute differences between successive values. *)
Fixpoint spec_successive (prev : float) (vs : list float) : list float :=
  match vs with
  | [] => []
  | v :: vs => Math_abs (v - prev) :: spec_successive v vs
  end.

Definition spec_absDiffs (vs : list float) : list float :=
  match vs with
  | [] => []
  | v :: vs => spec_successive v vs
  end.

Definition spec_speaking (vs : list float) : bool :=
  (spec_mean vs >? 0.03) && (spec_mean (spec_absDiffs vs) >? 0.008).

(** The displacement of the nose since the previous frame. *)
Definition spec_displacement (nose prev : Landmark) : float :=
  let dx := lm_x nose - lm_x prev in
  let dy := lm_y nose - lm_y prev in
  Math_sqrt (dx * dx + dy * dy).

(** The nose: pose landmark 0 if pose landmarks are present, otherwise face
    landmark 1. *)
Definition spec_nose (results : Results) : option Landmark :=
  match poseLandmarks results ≫= (λ pose, pose !! 0%nat) with
  | Some p => Some p
  | None => faceLandmarks results ≫= (λ face, face !! 1%nat)
  end.

(** The five lines of the status panel for given values of the signals. *)
Definition spec_panel (count : Z) (leftOpen rightOpen speak move : bool)
  : list string :=
  ["Fingers: " +:+ String_of count;
   "Left eye: " +:+ (if leftOpen then "Open" else "Closed");
   "Right eye: " +:+ (if rightOpen then "Open" else "Closed");
   "Speaking: " +:+ (if speak then "Yes" else "No");
   "Moving: " +:+ (if move then "Yes" else "No")].

(** ** Sample frames *)

Definition sample_point : Landmark := mkLandmark 0.5 0.5.

(** Landmarks put at given indices of an array. *)
Definition place (pts : list (nat * Landmark)) (base : list Landmark)
  : list Landmark :=
  foldr (λ '(i, p) l, <[i := p]> l) base pts.

(** A face of 468 landmarks, eyes shut and mouth open: each eye is 0.06
    wide and 0.002 high, the lips are 0.1 apart and the cheeks 0.4 apart;
    every other landmark, the nose included, sits at the centre. *)
Definition sample_face : list Landmark :=
  place [(33, mkLandmark 0.40 0.40); (133, mkLandmark 0.46 0.40);
         (160, mkLandmark 0.42 0.399); (144, mkLandmark 0.42 0.401);
         (158, mkLandmark 0.44 0.399); (153, mkLandmark 0.44 0.401);
         (362, mkLandmark 0.54 0.40); (263, mkLandmark 0.60 0.40);
         (385, mkLandmark 0.56 0.399); (380, mkLandmark 0.56 0.401);
         (387, mkLandmark 0.58 0.399); (373, mkLandmark 0.58 0.401);
         (13, mkLandmark 0.5 0.6); (14, mkLandmark 0.5 0.7);
         (234, mkLandmark 0.3 0.5); (454, mkLandmark 0.7 0.5)]%nat
        (replicate 468 sample_point).

Definition sample_results : Results := mkResults (Some sample_face) None None None.

(** The same face with the eyes open, 0.02 high. *)
Definition open_eyed_face : list Landmark :=
  place [(160, mkLandmark 0.42 0.39); (144, mkLandmark 0.42 0.41);
         (158, mkLandmark 0.44 0.39); (153, mkLandmark 0.44 0.41);
         (385, mkLandmark 0.56 0.39); (380, mkLandmark 0.56 0.41);
         (387, mkLandmark 0.58 0.39); (373, mkLandmark 0.58 0.41)]%nat
        sample_face.

(** The same face with the mouth shut. *)
Definition shut_face : list Landmark :=
  place [(14, mkLandmark 0.5 0.6)]%nat sample_face.

(** The same face with a cheek and an eye corner whose [x] is NaN. *)
Definition nan_face : list Landmark :=
  place [(234, mkLandmark nan 0.5); (33, mkLandmark nan 0.40)]%nat sample_face.

(** The same face with coordinates that are numbers but no fractions of an
    image: a cheek, an eye corner, a lip and a lid 1e200 away. *)
Definition far_face : list Landmark :=
  place [(234, mkLandmark 1e200 0.5); (33, mkLandmark 1e200 0.40);
         (13, mkLandmark 0.5 1e200); (160, mkLandmark 0.42 1e200)]%nat
        sample_face.

(** A face the detector cut short. *)
Definition short_face : list Landmark := replicate 300 sample_point.

(** A right hand of 21 landmarks, wrist down, four fingers raised and the
    thumb stretched to the left. *)
Definition sample_hand : list Landmark :=
  place [(0, mkLandmark 0.5 0.9); (3, mkLandmark 0.3 0.7);
         (4, mkLandmark 0.2 0.6); (8, mkLandmark 0.5 0.1);
         (12, mkLandmark 0.5 0.1); (16, mkLandmark 0.5 0.1);
         (20, mkLandmark 0.5 0.1)]%nat
        (replicate 21 sample_point).

Definition hand_results : Results :=
  mkResults None None (array_of_hands [sample_hand]) None.

(** The same hand as the Holistic solution sends it. *)
Definition holistic_hand_results : Results :=
  mkResults None None (flat_hand sample_hand) None.

(** Refs after some earlier frames: one closed-mouth sample in the buffer
    and a nose recorded 0.1 below the centre. *)
Definition later_refs : Refs :=
  mkRefs [mkSample 0 0] (Some (mkLandmark 0.5 0.6)).

(** Three frames in a row, with the pose nose 0.1 lower each time: the face
    with the mouth shut, then twice with the mouth open. *)
Definition nose_results (face : list Landmark) (noseY : float) : Results :=
  mkResults (Some face) None None (Some [mkLandmark 0.5 noseY]).

Definition three_frames : list Event :=
  [Frame 0 (nose_results shut_face 0.5);
   Frame 1 (nose_results sample_face 0.6);
   Frame 2 (nose_results sample_face 0.7)].

(** The component after forty frames of the sample face. *)
Definition forty_frames : list Event := replicate 40 (Frame 0 sample_results).

Definition after_forty : App :=
  default mount (fst <$> run mount forty_frames).

(** The sample face in a blink: the lower lid of the right eye lies on the
    upper one. *)
Definition blink_face : list Landmark :=
  place [(144, mkLandmark 0.42 0.399); (153, mkLandmark 0.44 0.399)]%nat
        sample_face.

(** Refs of a still subject: the buffer holds the mouth openness of the
    sample face, and the nose recorded is the one of [sample_point]. *)
Definition still_refs : Refs :=
  mkRefs [mkSample 0 (default 0 (mouthOpen_of sample_face));
          mkSample 1 (default 0 (mouthOpen_of sample_face))]
         (Some sample_point).

(** A fist: 21 landmarks, no finger raised and the thumb by the wrist. *)
Definition fist : list Landmark := replicate 21 sample_point.

(** A frame with a right fist and a left hand showing five fingers, as
    arrays of hands. *)
Definition two_hands : Results :=
  mkResults None (array_of_hands [sample_hand]) (array_of_hands [fist]) None.

(** The component after the forty frames and a click on the theme button,
    after a second click, and after the first click and one more frame, of
    the face with the eyes open. *)
Definition after_click : App * list CanvasOp :=
  default (mount, []) (step after_forty ThemeClick).

Definition after_two_clicks : App * list CanvasOp :=
  default (mount, []) (step after_click.1 ThemeClick).

Definition open_eyed_results : Results :=
  mkResults (Some open_eyed_face) None None None.

Definition after_frame : App * list CanvasOp :=
  default (mount, []) (step after_click.1 (Frame 40 open_eyed_results)).

(** ** The landmark overlay, call by call *)

(** The calls [drawOverlay] and [drawPolygon] make on the 2D context: those
    of the status panel, and the ones only the overlay uses. *)
Inductive OverlayOp :=
  | ov (op : CanvasOp)
  | ov_clearRect (x y w h : float)
  | ov_lineWidth (width : float)
  | ov_strokeStyle (style : string)
  | ov_arc (x y r startAngle endAngle : float)
  | ov_lineTo (x y : float).

(** A statement of the overlay: the calls it makes, or [None] when it
    raises before making any (each one reads its landmark first). *)
Definition Stmt : Type := option (list OverlayOp).

(** Statements in sequence: the calls made until the first raise, and
    whether the end was reached. *)
Fixpoint run_stmts (stmts : list Stmt) : list OverlayOp * bool :=
  match stmts with
  | [] => ([], true)
  | None :: _ => ([], false)
  | Some ops :: rest =>
      let '(trace, finished) := run_stmts rest in (ops ++ trace, finished)
  end.

(** [Math.PI * 2]. *)
Definition TWO_PI : float := 6.283185307179586.

(** A landmark on the mirrored canvas: [((1 - p.x) * w, p.y * h)]. *)
Definition toCanvas (w h : float) (p : Landmark) : float * float :=
  ((1 - lm_x p) * w, lm_y p * h).

(** Lines 269-277. *)
Definition drawPt (w h pulse : float) (pt : option Landmark) (color : string)
    (r : float) : Stmt :=
  pt ← pt;
  let '(x, y) := toCanvas w h pt in
  Some [ov ctx_beginPath; ov (ctx_fillStyle color); ov (ctx_globalAlpha 0.95);
        ov_arc x y (r * pulse) 0 TWO_PI; ov ctx_fill].

(** [i === 0 ? ctx.moveTo(x, y) : ctx.lineTo(x, y)]. *)
Definition path_to (i : nat) (xy : float * float) : OverlayOp :=
  if decide (i = 0%nat) then ov (ctx_moveTo xy.1 xy.2) else ov_lineTo xy.1 xy.2.

(** Lines 398-404. *)
Definition drawPolygon (pts : list (float * float)) : list OverlayOp :=
  if decide (length pts = 0%nat) then []
  else [ov ctx_beginPath] ++ imap path_to pts ++ [ov ctx_closePath; ov ctx_stroke].

(** Lines 313-316: the corners are read, then the polygon is drawn. *)
Definition eye_polygon (w h : float) (face : list Landmark) (eye : list nat)
  : Stmt :=
  pts ← mapM (λ i, toCanvas w h <$> face !! i) eye;
  Some (drawPolygon pts).

(** Lines 257-318, the body of [if (face)]; [sinPulse] is
    [Math.sin(pulseRef.current)]. *)
Definition face_stmts (env : Render) (face : list Landmark)
    (w h sinPulse : float) : list Stmt :=
  let pulse := 1 + sinPulse * 0.35 in
  [Some [ov_lineWidth 2]]
  ++ map (λ idx, drawPt w h pulse (face !! idx)
                   (if rightEyeOpen env then "rgba(0,220,120,0.9)"
                    else "rgba(220,60,60,0.95)") 3) RIGHT_EYE
  ++ map (λ idx, drawPt w h pulse (face !! idx)
                   (if leftEyeOpen env then "rgba(0,220,120,0.9)"
                    else "rgba(220,60,60,0.95)") 3) LEFT_EYE
  ++ [drawPt w h pulse (face !! MOUTH_UP)
        (if speaking env then "rgba(0,255,140,0.95)" else "rgba(255,200,0,0.9)") 4;
      drawPt w h pulse (face !! MOUTH_DOWN)
        (if speaking env then "rgba(0,255,140,0.95)" else "rgba(255,200,0,0.9)") 4]
  ++ (if speaking env then
        [Some [ov_strokeStyle "rgba(0,255,150,0.9)"; ov_lineWidth 2.5;
               ov ctx_beginPath]]
        ++ imap (λ i mi, p ← face !! mi; Some [path_to i (toCanvas w h p)])
                mouthIndices
        ++ [Some [ov ctx_closePath; ov ctx_stroke;
                  ov_strokeStyle "rgba(0,255,150,0.15)";
                  ov_lineWidth (18 * pulse); ov ctx_stroke]]
      else [])
  ++ (if negb (leftEyeOpen env) || negb (rightEyeOpen env) then
        [Some [ov_strokeStyle "rgba(255,60,60,0.9)"; ov_lineWidth 3];
         eye_polygon w h face RIGHT_EYE;
         eye_polygon w h face LEFT_EYE]
      else []).

(** Lines 326-332. *)
Definition connections : list (nat * nat) :=
  [(0, 1); (1, 2); (2, 3); (3, 4);
   (0, 5); (5, 6); (6, 7); (7, 8);
   (0, 9); (9, 10); (10, 11); (11, 12);
   (0, 13); (13, 14); (14, 15); (15, 16);
   (0, 17); (17, 18); (18, 19); (19, 20)]%nat.

(** Lines 334-339, one bone of the skeleton. *)
Definition bone (w h : float) (hand : list Landmark) (ab : nat * nat) : Stmt :=
  A ← toCanvas w h <$> hand !! ab.1;
  B ← toCanvas w h <$> hand !! ab.2;
  Some [ov (ctx_moveTo A.1 A.2); ov_lineTo B.1 B.2].

(** Line 350: [pip && lm && (lm.y < pip.y)], [lm] being a landmark. *)
Definition tip_isUp (hand : list Landmark) (lm : Landmark) (idx : nat) : bool :=
  match PIP !! idx ≫= λ j, hand !! j with
  | Some pip => lm_y lm <? lm_y pip
  | None => false
  end.

(** Lines 344-356, one fingertip. *)
Definition fingertip (w h sinPulse : float) (hand : list Landmark)
    (idx i : nat) : Stmt :=
  lm ← hand !! i;
  let '(x, y) := toCanvas w h lm in
  let isUp := tip_isUp hand lm idx in
  Some [ov ctx_beginPath;
        ov (ctx_fillStyle (if isUp then "rgba(0,255,140,0.95)"
                           else "rgba(200,200,200,0.85)"));
        ov (ctx_globalAlpha 0.95);
        ov_arc x y (if isUp then 7 * (1 + sinPulse / 6) else 5) 0 TWO_PI;
        ov ctx_fill].

(** Lines 321-357, the body of the [if] on the hand. *)
Definition hand_stmts (hand : list Landmark) (w h sinPulse : float) : list Stmt :=
  [Some [ov_strokeStyle "rgba(0,200,120,0.95)"; ov_lineWidth 2; ov ctx_beginPath]]
  ++ map (bone w h hand) connections
  ++ [Some [ov ctx_stroke]]
  ++ imap (fingertip w h sinPulse hand) TIP.

(** Lines 245-363 in full: the calls made, and whether [drawOverlay]
    returned rather than raised.  [hand] is [handLandmarks] when that is an
    array; a landmark, which has no [length], fails the test of line 321 as
    [null] does. *)
Definition drawOverlay_calls (env : Render) (face hand : option (list Landmark))
    (w h sinPulse : float) : list OverlayOp * bool :=
  run_stmts
    ([Some [ov ctx_save; ov_clearRect 0 0 w h]]
     ++ match face with Some face => face_stmts env face w h sinPulse | None => [] end
     ++ match hand with
        | Some hand =>
            if decide (length hand = 21%nat) then hand_stmts hand w h sinPulse
            else []
        | None => []
        end
     ++ [Some (ov <$> drawHUD env w); Some [ov ctx_restore]]).

(** The strings a list of overlay calls writes with [fillText]. *)
Definition overlay_texts (ops : list OverlayOp) : list string :=
  texts (omap (λ op, match op with ov c => Some c | _ => None end) ops).

(** The points a list of overlay calls moves or draws a line to. *)
Definition vertices (ops : list OverlayOp) : list (float * float) :=
  omap (λ op, match op with
              | ov (ctx_moveTo x y) | ov_lineTo x y => Some (x, y)
              | _ => None
              end) ops.

(** The calls that only draw: they neither write text nor touch the stack
    of saved states. *)
Definition drawing (op : OverlayOp) : Prop :=
  match op with
  | ov ctx_save | ov ctx_restore | ov (ctx_fillText _ _ _) => False
  | _ => True
  end.

(** The [ctx.save()] ([true]) and [ctx.restore()] ([false]) calls of a list,
    in order. *)
Definition nesting (ops : list OverlayOp) : list bool :=
  omap (λ op, match op with
              | ov ctx_save => Some true
              | ov ctx_restore => Some false
              | _ => None
              end) ops.

(** ** The status chips *)

(** Lines 477-493: what a chip shows. *)
Record Chip := mkChip {
  chip_label : string;
  chip_background : string;
  chip_color : string
}.

Definition StatusChip (label : string) (active : bool) : Chip :=
  mkChip label
         (if active then "linear-gradient(90deg,#0fbf5f,#00d27a)" else "#eee")
         (if active then "#062b1f" else "#666").

(** Lines 453-457: the status row a render returns. *)
Definition statusRow (r : Render) : list Chip :=
  [StatusChip ("Fingers: " +:+ String_of (fingerCount r)) true;
   StatusChip "Left Eye" (leftEyeOpen r);
   StatusChip "Right Eye" (rightEyeOpen r);
   StatusChip "Speaking" (speaking r);
   StatusChip "Moving" (moving r)].

(** Line 425: the label of the theme button. *)
Definition themeButton (r : Render) : string :=
  (if String.eqb (theme r) "dark" then "Light" else "Dark") +:+ " Theme".

(** ** Binary64 facts

    The comparisons and the rounding of the operations the heuristics use,
    read off the specification of the primitive floats. *)

(** The specification is written with the kernel's integer operations;
    these are the Standard Library's, under another name. *)
Ltac stdlib_names :=
  change IntDef.Z.add with Z.add in *;
  change IntDef.Z.sub with Z.sub in *;
  change IntDef.Z.mul with Z.mul in *;
  change IntDef.Z.leb with Z.leb in *;
  change IntDef.Z.eqb with Z.eqb in *;
  change IntDef.Z.max with Z.max in *;
  change IntDef.Z.min with Z.min in *;
  change IntDef.Z.compare with Z.compare in *;
  change PosDef.Pos.mul with Pos.mul in *;
  change PosDef.Pos.compare_cont with Pos.compare_cont in *.

(** A rounded result: a zero, a finite number or an infinity of sign [s]. *)
Definition SF_signed (s : bool) (x : spec_float) : Prop :=
  match x with
  | S754_nan => False
  | S754_zero s' | S754_infinity s' | S754_finite s' _ _ => s' = s
  end.

Definition SF_number (x : spec_float) : Prop :=
  match x with S754_nan => False | _ => True end.

Definition SF_finite (x : spec_float) : Prop :=
  match x with S754_zero _ | S754_finite _ _ _ => True | _ => False end.

(** A value that [<? 0] does not hold of: NaN, or anything with a clear
    sign bit. *)
Definition SF_nonneg (x : spec_float) : Prop :=
  match x with
  | S754_nan => True
  | S754_zero s | S754_infinity s | S754_finite s _ _ => s = false
  end.

(** A zero, or a finite number below [2^k] in magnitude. *)
Definition SF_below (k : Z) (x : spec_float) : Prop :=
  match x with
  | S754_zero _ => True
  | S754_finite _ m e => (Z.pos (digits2_pos m) + e ≤ k)%Z
  | _ => False
  end.

(** A finite number of magnitude at least [2^(k-1)]. *)
Definition SF_above (k : Z) (x : spec_float) : Prop :=
  match x with
  | S754_finite _ m e => (k ≤ Z.pos (digits2_pos m) + e)%Z
  | _ => False
  end.

Definition SF_1em6 : spec_float := S754_finite false 4722366482869645 (-72).
Definition SF_two : spec_float := S754_finite false 4503599627370496 (-51).

(** A landmark whose coordinates are finite numbers. *)
Definition finite_landmark (p : Landmark) : Prop :=
  is_finite (lm_x p) = true ∧ is_finite (lm_y p) = true.

(** Line 190: the coordinates are normalized, that is, fractions of the
    width and of the height of the image: between 0 and 1 for a landmark on
    the image, and outside that range for one the detector places off it.
    [normalized] allows for a thousand image sizes either way. *)
Definition normalized (p : Landmark) : Prop :=
  (abs (lm_x p) <=? 1000) = true ∧ (abs (lm_y p) <=? 1000) = true.

(** What holds of a denominator built on the clamp of a distance [c]: it is
    never zero, it is NaN only if [c] is, and it is at least 1e-6 as soon as
    [c] is a number. *)
Definition guarded (c den : float) : Prop :=
  is_zero den = false
  ∧ (is_nan den = true ∨ (1e-6 <=? den) = true)
  ∧ (is_nan c = false → (1e-6 <=? den) = true).

Lemma is_nan_Prim2SF (f : float) :
  is_nan f = match Prim2SF f with S754_nan => true | _ => false end.
Proof.
  unfold is_nan. rewrite FloatAxioms.eqb_spec. unfold SFeqb, SFcompare.
  destruct (Prim2SF f) as [[]|[]| |[] m e]; try done;
    by rewrite Z.compare_refl, Pos.compare_cont_refl.
Qed.

Lemma is_finite_Prim2SF (f : float) :
  is_finite f = true → SF_finite (Prim2SF f).
Proof.
  unfold is_finite, is_infinity.
  rewrite is_nan_Prim2SF, FloatAxioms.eqb_spec, abs_spec.
  change (Prim2SF infinity) with (S754_infinity false).
  by destruct (Prim2SF f) as [[]|[]| |[] m e].
Qed.

Lemma ltb_leb (a b : float) : (a <? b) = true → (a <=? b) = true.
Proof.
  rewrite ltb_spec, leb_spec. unfold SFltb, SFleb.
  by destruct (SFcompare _ _) as [[]|].
Qed.

Lemma Prim2SF_1em6 : Prim2SF 1e-6 = SF_1em6.
Proof. reflexivity. Qed.

Lemma Prim2SF_two : Prim2SF 2 = SF_two.
Proof. reflexivity. Qed.

(** [|a| * |a|] is [a * a], bit for bit. *)
Lemma mul_abs_abs (a : float) : abs a * abs a = a * a.
Proof.
  apply Prim2SF_inj. rewrite !mul_spec, abs_spec.
  by destruct (Prim2SF a) as [[]|[]| |[] m e].
Qed.

(** *** Rounding never invents a NaN *)

Section Rounding.
Local Open Scope Z_scope.

Lemma SF_signed_number (s : bool) (x : spec_float) : SF_signed s x → SF_number x.
Proof. by destruct x. Qed.

Lemma shr_1_nonneg (mrs : shr_record) : 0 ≤ shr_m mrs → 0 ≤ shr_m (shr_1 mrs).
Proof. destruct mrs as [[|[p|p|]|[p|p|]] r s]; cbn; lia. Qed.

Lemma iter_shr_1_nonneg (p : positive) : ∀ mrs,
  0 ≤ shr_m mrs → 0 ≤ shr_m (SpecFloat.iter_pos shr_1 p mrs).
Proof.
  induction p as [p IH|p IH|]; intros mrs H; cbn [SpecFloat.iter_pos];
    auto using shr_1_nonneg.
Qed.

Lemma shr_fexp_nonneg (m e : Z) (l : location) :
  0 ≤ m → 0 ≤ shr_m (fst (shr_fexp prec emax m e l)).
Proof.
  intros Hm. unfold shr_fexp, shr.
  assert (0 ≤ shr_m (shr_record_of_loc m l)) by (by destruct l as [|[]]).
  destruct (_ - e); cbn [fst]; auto using iter_shr_1_nonneg.
Qed.

Lemma round_nearest_even_nonneg (m : Z) (l : location) :
  0 ≤ m → 0 ≤ round_nearest_even m l.
Proof.
  intros Hm. unfold round_nearest_even. stdlib_names.
  destruct l as [|[]]; try lia. destruct (Z.even m); lia.
Qed.

Lemma binary_round_aux_signed (s : bool) (mx ex : Z) (lx : location) :
  0 ≤ mx → SF_signed s (binary_round_aux prec emax s mx ex lx).
Proof.
  intros Hm. unfold binary_round_aux.
  pose proof (shr_fexp_nonneg mx ex lx Hm) as H1.
  destruct (shr_fexp prec emax mx ex lx) as [mrs' e']. cbn [fst] in H1.
  pose proof (shr_fexp_nonneg _ e' loc_Exact
                (round_nearest_even_nonneg _ (loc_of_shr_record mrs') H1)) as H2.
  destruct (shr_fexp prec emax _ e' loc_Exact) as [mrs'' e'']. cbn [fst] in H2.
  destruct (shr_m mrs''); [done| |lia].
  by destruct (_ <=? _).
Qed.

Lemma binary_round_signed (s : bool) (m : positive) (e : Z) :
  SF_signed s (binary_round prec emax s m e).
Proof.
  unfold binary_round. destruct (shl_align _ _ _) as [mz ez].
  by apply binary_round_aux_signed.
Qed.

Lemma binary_normalize_number (m e : Z) (sz : bool) :
  SF_number (binary_normalize prec emax m e sz).
Proof.
  destruct m; cbn [binary_normalize]; [done|..];
    eapply SF_signed_number, binary_round_signed.
Qed.

Lemma SFsub_finite (x y : spec_float) :
  SF_finite x → SF_finite y → SF_number (SF64sub x y).
Proof.
  destruct x as [[]|[]| |sx mx ex], y as [[]|[]| |sy my ey]; try done.
  intros _ _. apply binary_normalize_number.
Qed.

Lemma SFmul_self (d : spec_float) : SF_number d → SF_signed false (SF64mul d d).
Proof.
  destruct d as [[]|[]| |[] m e]; try done; intros _;
    by apply binary_round_aux_signed.
Qed.

Lemma SFadd_signed (x y : spec_float) :
  SF_signed false x → SF_signed false y → SF_signed false (SF64add x y).
Proof.
  destruct x as [[]|[]| |[] mx ex], y as [[]|[]| |[] my ey]; try done.
  intros _ _. unfold SF64add, SFadd, cond_Zopp.
  destruct (shl_align mx _ _) as [a ?], (shl_align my _ _) as [b ?]. cbn [fst].
  apply binary_round_signed.
Qed.

Lemma SFsqrt_signed (x : spec_float) :
  SF_signed false x → SF_signed false (SF64sqrt x).
Proof.
  destruct x as [[]|[]| |[] m e]; try done. intros _.
  unfold SF64sqrt, SFsqrt, SFsqrt_core_binary.
  set (m' := match _ - _ * _ with Z0 => _ | Zpos _ => _ | Zneg _ => _ end).
  assert (0 ≤ fst (Z.sqrtrem m')) as Hq.
  { unfold Z.sqrtrem. destruct m'; [done| |done].
    destruct (Pos.sqrtrem p) as [q [| |]]; done. }
  destruct (Z.sqrtrem m') as [q r]. by apply binary_round_aux_signed.
Qed.

(** *** Doubling a number that is at least 1e-6 *)

Lemma digits2_pos_shift (m : positive) :
  digits2_pos (4503599627370496 * m) = (52 + digits2_pos m)%positive.
Proof.
  transitivity (Pos.iter Pos.succ (digits2_pos m) 52); [reflexivity|].
  generalize (digits2_pos m) as d. generalize 52%positive as n.
  induction n using Pos.peano_ind; intros d.
  - cbn [Pos.iter]. lia.
  - rewrite Pos.iter_succ, IHn. lia.
Qed.

Lemma iter_shr_1_52 (m : positive) :
  SpecFloat.iter_pos shr_1 52
    (Build_shr_record (Zpos (4503599627370496 * m)) false false)
  = Build_shr_record (Zpos m) false false.
Proof. reflexivity. Qed.

Lemma SFmul_two (m : positive) (e : Z) :
  digits2_pos m = 53%positive →
  -1074 < e →
  SFmul prec emax SF_two (S754_finite false m e)
  = if e + 1 <=? 971 then S754_finite false m (e + 1) else S754_infinity false.
Proof.
  intros Hd He.
  unfold SFmul, SF_two, binary_round_aux. cbn [xorb].
  unfold shr_fexp at 1. unfold Zdigits2 at 1. stdlib_names.
  rewrite digits2_pos_shift, Hd.
  replace (fexp prec emax (Z.pos (52 + 53) + (-51 + e)) - (-51 + e)) with 52
    by (unfold fexp, SpecFloat.emin, prec, emax; stdlib_names; lia).
  cbn [shr_record_of_loc shr]. rewrite iter_shr_1_52.
  cbn [shr_m loc_of_shr_record round_nearest_even shr_record_of_loc].
  unfold shr_fexp, Zdigits2. rewrite Hd.
  replace (fexp prec emax (Z.pos 53 + (-51 + e + 52)) - (-51 + e + 52)) with 0
    by (unfold fexp, SpecFloat.emin, prec, emax; stdlib_names; lia).
  cbn [shr shr_record_of_loc shr_m].
  replace (-51 + e + 52) with (e + 1) by lia.
  reflexivity.
Qed.

(** A binary64 number that is at least 1e-6 is normal. *)
Lemma clamped_normal (m : positive) (e : Z) :
  valid_binary (S754_finite false m e) = true →
  SFleb SF_1em6 (S754_finite false m e) = true →
  digits2_pos m = 53%positive ∧ -72 ≤ e.
Proof.
  unfold valid_binary, bounded, canonical_mantissa, fexp, SpecFloat.emin, prec, emax.
  unfold SFleb, SF_1em6, SFcompare. stdlib_names.
  intros [Hc _]%andb_prop Hle.
  apply Z.eqb_eq in Hc.
  destruct (Z.compare_spec (-72) e); try done; lia.
Qed.

End Rounding.

(** *** The clamp and the two denominators *)

Lemma distance_number (a b : Landmark) :
  finite_landmark a → finite_landmark b → is_nan (distance a b) = false.
Proof.
  intros [Hax Hay] [Hbx Hby]. unfold distance, Math_sqrt. cbn zeta.
  rewrite is_nan_Prim2SF, sqrt_spec, add_spec, !mul_spec, !sub_spec.
  apply is_finite_Prim2SF in Hax, Hbx, Hay, Hby.
  pose proof (SFsqrt_signed _
    (SFadd_signed _ _ (SFmul_self _ (SFsub_finite _ _ Hax Hbx))
                      (SFmul_self _ (SFsub_finite _ _ Hay Hby)))) as H.
  by destruct (SF64sqrt _).
Qed.

(** [Math.max(1e-6, c)] is NaN exactly when [c] is, and at least 1e-6
    otherwise. *)
Lemma Math_max_clamp (c : float) :
  let d := Math_max 1e-6 c in
  (is_nan c = true ∧ is_nan d = true)
  ∨ (is_nan c = false ∧ (1e-6 <=? d) = true).
Proof.
  unfold Math_max. change (is_nan 1e-6) with false. cbn [orb].
  destruct (is_nan c) eqn:Hc; [by left|right; split; [done|]].
  destruct (1e-6 <? c) eqn:Hlt; [by apply ltb_leb|].
  by destruct (c <? 1e-6).
Qed.

Lemma mul2_clamped (m : float) :
  (1e-6 <=? m) = true → (1e-6 <=? 2 * m) = true.
Proof.
  rewrite !leb_spec, mul_spec, Prim2SF_1em6, Prim2SF_two.
  pose proof (Prim2SF_valid m) as Hv.
  destruct (Prim2SF m) as [[]|[]| |[] mm e]; try done.
  intros Hle. destruct (clamped_normal mm e Hv Hle) as [Hd He].
  unfold SF64mul. rewrite SFmul_two by (done || lia).
  destruct (e + 1 <=? 971)%Z; [|done].
  unfold SFleb, SF_1em6, SFcompare. stdlib_names.
  destruct (Z.compare_spec (-72) (e + 1)); try done; lia.
Qed.

Lemma mul2_nan (m : float) : is_nan m = true → is_nan (2 * m) = true.
Proof.
  rewrite !is_nan_Prim2SF, mul_spec, Prim2SF_two.
  by destruct (Prim2SF m).
Qed.

Lemma clamped_not_zero (d : float) :
  is_nan d = true ∨ (1e-6 <=? d) = true → is_zero d = false.
Proof.
  unfold is_zero.
  rewrite is_nan_Prim2SF, leb_spec, FloatAxioms.eqb_spec, Prim2SF_1em6.
  change (Prim2SF zero) with (S754_zero false).
  destruct (Prim2SF d) as [[]|[]| |[] mm e]; intros [?|?]; done.
Qed.

Lemma guarded_mouth (c : float) : guarded c (Math_max 1e-6 c).
Proof.
  unfold guarded. destruct (Math_max_clamp c) as [[Hc Hd]|[Hc Hd]];
    cbn zeta in Hd; rewrite Hc.
  - split_and!; [apply clamped_not_zero|..]; auto. done.
  - split_and!; [apply clamped_not_zero|..]; auto.
Qed.

Lemma guarded_ear (c : float) : guarded c (2.0 * Math_max 1e-6 c).
Proof.
  unfold guarded. destruct (Math_max_clamp c) as [[Hc Hd]|[Hc Hd]];
    cbn zeta in Hd; rewrite Hc.
  - apply mul2_nan in Hd.
    split_and!; [apply clamped_not_zero|..]; auto. done.
  - apply mul2_clamped in Hd.
    split_and!; [apply clamped_not_zero|..]; auto.
Qed.

(** *** Magnitudes

    A finite binary64 number of mantissa [m] and exponent [e] lies below
    [2^(digits m + e)]; rounding adds at most one to that exponent, and each
    operation of the heuristics has a bound of its own.  Far below the
    overflow threshold every result is finite. *)

Section Magnitude.
Local Open Scope Z_scope.

Lemma digits2_pos_size (m : positive) : digits2_pos m = Pos.size m.
Proof. induction m as [m IH|m IH|]; cbn; by rewrite ?IH. Qed.

Lemma Zdigits2_log2 (m : Z) : 0 < m → Zdigits2 m = Z.log2 m + 1.
Proof.
  destruct m as [|[m|m|]|]; try done; intros _; cbn [Zdigits2 digits2_pos Z.log2];
    rewrite digits2_pos_size; lia.
Qed.

Lemma Zdigits2_nonneg (m : Z) : 0 ≤ Zdigits2 m.
Proof. by destruct m. Qed.

Lemma shr_1_div2 (mrs : shr_record) :
  0 ≤ shr_m mrs → shr_m (shr_1 mrs) = Z.shiftr (shr_m mrs) 1.
Proof. by destruct mrs as [[|[p|p|]|[p|p|]] r s]. Qed.

Lemma iter_shr_1_shiftr (p : positive) : ∀ mrs,
  0 ≤ shr_m mrs →
  shr_m (SpecFloat.iter_pos shr_1 p mrs) = Z.shiftr (shr_m mrs) (Z.pos p).
Proof.
  induction p as [p IH|p IH|]; intros mrs H; cbn [SpecFloat.iter_pos].
  - rewrite !IH, shr_1_div2, !Z.shiftr_shiftr by
      (auto using iter_shr_1_nonneg, shr_1_nonneg; lia).
    f_equal. lia.
  - rewrite !IH, !Z.shiftr_shiftr by (auto using iter_shr_1_nonneg; lia).
    f_equal. lia.
  - by apply shr_1_div2.
Qed.

Lemma Zdigits2_shiftr (m n : Z) :
  0 ≤ m → 0 ≤ n → Zdigits2 (Z.shiftr m n) ≤ Z.max 0 (Zdigits2 m - n).
Proof.
  intros Hm Hn. destruct (Z.eq_dec m 0) as [->|Hm0].
  { rewrite Z.shiftr_0_l. cbn. lia. }
  assert (0 ≤ Z.shiftr m n) as Hs by (by apply Z.shiftr_nonneg).
  destruct (Z.eq_dec (Z.shiftr m n) 0) as [->|Hs0]; [cbn; lia|].
  rewrite !Zdigits2_log2 by lia.
  rewrite Z.log2_shiftr by lia.
  assert (n ≤ Z.log2 m); [|lia].
  destruct (Z.le_gt_cases n (Z.log2 m)) as [|Hgt]; [done|].
  exfalso. apply Hs0. apply Z.shiftr_eq_0; lia.
Qed.

Lemma Zdigits2_succ (m : Z) : 0 ≤ m → Zdigits2 (m + 1) ≤ Zdigits2 m + 1.
Proof.
  intros Hm. destruct (Z.eq_dec m 0) as [->|Hm0]; [done|].
  rewrite !Zdigits2_log2 by lia.
  pose proof (Z.log2_succ_le m). unfold Z.succ in *. lia.
Qed.

Lemma Zdigits2_round (m : Z) (l : location) :
  0 ≤ m → Zdigits2 (round_nearest_even m l) ≤ Zdigits2 m + 1.
Proof.
  intros Hm. unfold round_nearest_even. stdlib_names.
  pose proof (Zdigits2_succ m Hm).
  destruct l as [|[]]; try lia. destruct (Z.even m); lia.
Qed.

(** One shift to the format: the magnitude does not grow. *)
Lemma shr_fexp_below (m e : Z) (l : location) (K : Z) :
  0 ≤ m → Zdigits2 m + e ≤ K → e < K → -1074 < K →
  let '(mrs, e') := shr_fexp prec emax m e l in
  0 ≤ shr_m mrs ∧ Zdigits2 (shr_m mrs) + e' ≤ K ∧ e' < K.
Proof.
  intros Hm Hd He HK.
  pose proof (shr_fexp_nonneg m e l Hm) as Hnn.
  unfold shr_fexp, shr in *.
  assert (Hl : shr_m (shr_record_of_loc m l) = m) by (by destruct l as [|[]]).
  stdlib_names.
  destruct (fexp prec emax (Zdigits2 m + e) - e) as [|n|n] eqn:Hn; cbn [fst] in Hnn.
  - rewrite Hl. lia.
  - split; [done|].
    rewrite iter_shr_1_shiftr by (rewrite Hl; lia). rewrite Hl.
    pose proof (Zdigits2_shiftr m (Z.pos n) Hm ltac:(lia)).
    pose proof (Zdigits2_nonneg m).
    unfold fexp, SpecFloat.emin, prec, emax in Hn. stdlib_names. lia.
  - rewrite Hl. lia.
Qed.

(** Rounding to the format a value below [2^K]: the result is finite and
    below [2^(K+1)]. *)
Lemma binary_round_aux_below (s : bool) (m e : Z) (l : location) (K : Z) :
  0 ≤ m → Zdigits2 m + e ≤ K → e < K → -1074 < K ≤ 971 →
  SF_below (K + 1) (binary_round_aux prec emax s m e l).
Proof.
  intros Hm Hd He HK. unfold binary_round_aux.
  pose proof (shr_fexp_below m e l K Hm Hd He ltac:(lia)) as H1.
  destruct (shr_fexp prec emax m e l) as [mrs' e']. destruct H1 as (Hm' & Hd' & He').
  pose proof (round_nearest_even_nonneg _ (loc_of_shr_record mrs') Hm') as Hr.
  pose proof (Zdigits2_round _ (loc_of_shr_record mrs') Hm') as Hdr.
  pose proof (shr_fexp_below _ e' loc_Exact (K + 1) Hr ltac:(lia) ltac:(lia) ltac:(lia))
    as H2.
  destruct (shr_fexp prec emax _ e' loc_Exact) as [mrs'' e''].
  destruct H2 as (Hm'' & Hd'' & He'').
  destruct (shr_m mrs'') as [|m''|m'']; [done| |lia].
  cbn [Zdigits2] in Hd''. unfold prec, emax. stdlib_names.
  rewrite (proj2 (Z.leb_le _ _)) by lia. exact Hd''.
Qed.

Lemma SF_below_le (k k' : Z) (x : spec_float) : SF_below k x → k ≤ k' → SF_below k' x.
Proof. destruct x; cbn; try done. lia. Qed.

Lemma digits2_pos_log2 (m : positive) : Z.pos (digits2_pos m) = Z.log2 (Z.pos m) + 1.
Proof. exact (Zdigits2_log2 (Z.pos m) eq_refl). Qed.

Lemma SFmul_below (kx ky : Z) (x y : spec_float) :
  SF_below kx x → SF_below ky y → -1074 < kx + ky ≤ 971 →
  SF_below (kx + ky + 1) (SF64mul x y).
Proof.
  destruct x as [sx|sx| |sx mx ex], y as [sy|sy| |sy my ey]; try done.
  cbn [SF_below]. intros Hx Hy HK. unfold SF64mul, SFmul. stdlib_names.
  pose proof (Z.log2_mul_above (Z.pos mx) (Z.pos my) ltac:(lia) ltac:(lia)) as Hlog.
  rewrite !digits2_pos_log2 in *.
  apply binary_round_aux_below; [lia| |..|done].
  - rewrite Zdigits2_log2 by lia. rewrite Pos2Z.inj_mul. lia.
  - pose proof (Z.log2_nonneg (Z.pos mx)). pose proof (Z.log2_nonneg (Z.pos my)). lia.
Qed.

Lemma digits2_pos_iter (m d : positive) :
  digits2_pos (Pos.iter xO m d) = (digits2_pos m + d)%positive.
Proof.
  induction d using Pos.peano_ind.
  - cbn. lia.
  - rewrite Pos.iter_succ. cbn [digits2_pos]. rewrite IHd. lia.
Qed.

Lemma shl_align_digits (m : positive) (e e' : Z) :
  Z.pos (digits2_pos (shl_align m e e').1) + (shl_align m e e').2
  = Z.pos (digits2_pos m) + e
  ∧ (shl_align m e e').2 ≤ e.
Proof.
  unfold shl_align. stdlib_names. destruct (e' - e) as [|d|d] eqn:Hd; cbn [fst snd];
    [lia|lia|].
  rewrite digits2_pos_iter. lia.
Qed.

Lemma binary_round_below (s : bool) (m : positive) (e K : Z) :
  Z.pos (digits2_pos m) + e ≤ K → -1074 < K ≤ 971 →
  SF_below (K + 1) (binary_round prec emax s m e).
Proof.
  intros Hd HK. unfold binary_round.
  pose proof (shl_align_digits m e
                (fexp prec emax (IntDef.Z.add (Z.pos (digits2_pos m)) e))) as [H1 H2].
  destruct (shl_align _ _ _) as [mz ez]. cbn [fst snd] in H1, H2.
  apply binary_round_aux_below; [lia| | |done].
  - cbn [Zdigits2]. lia.
  - pose proof (Pos2Z.is_pos (digits2_pos mz)). lia.
Qed.

Lemma binary_normalize_below (m e K : Z) (sz : bool) :
  Zdigits2 m + e ≤ K → -1074 < K ≤ 971 →
  SF_below (K + 1) (binary_normalize prec emax m e sz).
Proof.
  intros Hd HK. destruct m as [|m|m]; cbn [binary_normalize Zdigits2] in *; [done|..];
    by apply binary_round_below.
Qed.

Lemma Zdigits2_abs (m : Z) : Zdigits2 m = Zdigits2 (Z.abs m).
Proof. by destruct m. Qed.

Lemma Zdigits2_le (a b : Z) : 0 ≤ a ≤ b → Zdigits2 a ≤ Zdigits2 b.
Proof.
  intros [Ha Hab]. destruct (Z.eq_dec a 0) as [->|Ha0]; [apply Zdigits2_nonneg|].
  rewrite !Zdigits2_log2 by lia. pose proof (Z.log2_le_mono a b Hab). lia.
Qed.

Lemma Zdigits2_double (a : Z) : 0 < a → Zdigits2 (2 * a) = Zdigits2 a + 1.
Proof.
  intros Ha. rewrite !Zdigits2_log2 by lia. rewrite Z.log2_double by lia. lia.
Qed.

(** The sum or difference of two aligned mantissas. *)
Lemma Zdigits2_sum (a b c : Z) :
  0 < a → 0 < b → Z.abs c ≤ a + b →
  Zdigits2 c ≤ Z.max (Zdigits2 a) (Zdigits2 b) + 1.
Proof.
  intros Ha Hb Hc. rewrite (Zdigits2_abs c).
  etrans; [apply (Zdigits2_le _ (2 * Z.max a b)); lia|].
  rewrite Zdigits2_double by lia.
  destruct (Z.max_spec a b) as [[_ ->]|[_ ->]]; lia.
Qed.

Lemma aligned_below (sx sy : bool) (mx my : positive) (ex ey : Z) (kx ky : Z)
    (c : Z) :
  Z.pos (digits2_pos mx) + ex ≤ kx → Z.pos (digits2_pos my) + ey ≤ ky →
  let ez := Z.min ex ey in
  Z.abs c ≤ Z.pos (shl_align mx ex ez).1 + Z.pos (shl_align my ey ez).1 →
  Zdigits2 c + ez ≤ Z.max kx ky + 1.
Proof.
  intros Hx Hy ez Hc.
  pose proof (shl_align_digits mx ex ez) as [Hax Hax'].
  pose proof (shl_align_digits my ey ez) as [Hay Hay'].
  assert ((shl_align mx ex ez).2 = ez) as Hex.
  { unfold shl_align. stdlib_names. subst ez.
    destruct (Z.min ex ey - ex) eqn:?; cbn [snd]; lia. }
  assert ((shl_align my ey ez).2 = ez) as Hey.
  { unfold shl_align. stdlib_names. subst ez.
    destruct (Z.min ex ey - ey) eqn:?; cbn [snd]; lia. }
  rewrite Hex in Hax. rewrite Hey in Hay.
  pose proof (Zdigits2_sum (Z.pos (shl_align mx ex ez).1) (Z.pos (shl_align my ey ez).1)
                c ltac:(lia) ltac:(lia) Hc) as Hs.
  cbn [Zdigits2] in Hs. lia.
Qed.

Lemma SFadd_below (kx ky : Z) (x y : spec_float) :
  SF_below kx x → SF_below ky y → -1074 < Z.max kx ky + 1 ≤ 971 →
  SF_below (Z.max kx ky + 2) (SF64add x y).
Proof.
  destruct x as [sx|sx| |sx mx ex], y as [sy|sy| |sy my ey]; try done;
    cbn [SF_below]; intros Hx Hy HK.
  - by destruct sx, sy.
  - cbn. lia.
  - cbn. lia.
  - unfold SF64add, SFadd. stdlib_names.
    replace (Z.max kx ky + 2) with (Z.max kx ky + 1 + 1) by lia.
    apply binary_normalize_below; [|done].
    apply (aligned_below sx sy mx my ex ey); [done..|].
    unfold cond_Zopp. destruct sx, sy; lia.
Qed.

Lemma SFsub_below (kx ky : Z) (x y : spec_float) :
  SF_below kx x → SF_below ky y → -1074 < Z.max kx ky + 1 ≤ 971 →
  SF_below (Z.max kx ky + 2) (SF64sub x y).
Proof.
  destruct x as [sx|sx| |sx mx ex], y as [sy|sy| |sy my ey]; try done;
    cbn [SF_below]; intros Hx Hy HK.
  - by destruct sx, sy.
  - cbn. lia.
  - cbn. lia.
  - unfold SF64sub, SFsub. stdlib_names.
    replace (Z.max kx ky + 2) with (Z.max kx ky + 1 + 1) by lia.
    apply binary_normalize_below; [|done].
    apply (aligned_below sx sy mx my ex ey); [done..|].
    unfold cond_Zopp. destruct sx, sy; lia.
Qed.

Lemma Zdigits2_shiftl (m s : Z) : 0 < m → 0 ≤ s → Zdigits2 (Z.shiftl m s) = Zdigits2 m + s.
Proof.
  intros Hm Hs.
  assert (0 < Z.shiftl m s) by (rewrite Z.shiftl_mul_pow2 by lia; nia).
  rewrite !Zdigits2_log2 by lia. rewrite Z.log2_shiftl by lia. lia.
Qed.

Lemma SFsqrt_below (k : Z) (x : spec_float) :
  SF_signed false x → SF_below k x → 1 ≤ k ≤ 971 →
  SF_below (k + 1) (SF64sqrt x).
Proof.
  destruct x as [[]|[]| |[] m e]; try done. intros _. cbn [SF_below]. intros Hx Hk.
  unfold SF64sqrt, SFsqrt, SFsqrt_core_binary. stdlib_names.
  cbn [Zdigits2].
  set (d := Z.pos (digits2_pos m)) in *.
  assert (0 < d) as Hd by (subst d; lia).
  set (e' := Z.min _ _).
  assert (He' : e' ≤ Z.div2 e) by (subst e'; lia).
  rewrite Z.div2_div in He'.
  pose proof (Z.mul_div_le e 2 ltac:(lia)) as Hhalf.
  assert (2 * e' ≤ e) as He2 by lia. clear He' Hhalf.
  set (m' := match e - 2 * e' with Z0 => _ | Zpos _ => _ | Zneg _ => _ end).
  assert (Hm' : 0 ≤ m' ∧ (0 < m' → Zdigits2 m' = d + (e - 2 * e'))).
  { subst m'. destruct (e - 2 * e') as [|s|s] eqn:Hs.
    - split; [lia|]. intros _. cbn [Zdigits2]. lia.
    - split; [apply Z.shiftl_nonneg; lia|]. intros _.
      by rewrite Zdigits2_shiftl by lia.
    - split; [lia|]. lia. }
  destruct Hm' as [Hm'0 Hm'd]. clearbody m' e' d.
  pose proof (Z.sqrtrem_spec m' Hm'0) as Hspec.
  destruct (Z.sqrtrem m') as [q r]. destruct Hspec as [Hq Hr].
  assert (0 ≤ q) as Hq0 by lia.
  apply binary_round_aux_below; [done| | |lia].
  - destruct (Z.eq_dec q 0) as [->|Hq1]; [cbn [Zdigits2]; lia|].
    assert (0 < m') as Hpos by nia. specialize (Hm'd Hpos).
    rewrite Zdigits2_log2 in Hm'd by lia. rewrite Zdigits2_log2 by lia.
    pose proof (Z.log2_mul_below q q ltac:(lia) ltac:(lia)) as Hb.
    pose proof (Z.log2_le_mono (q * q) m' ltac:(lia)) as Hmono.
    lia.
  - lia.
Qed.

Lemma SFdiv_below (kx ly : Z) (x y : spec_float) :
  SF_below kx x → SF_above ly y → -1074 < kx - ly + 1 ≤ 971 →
  SF_below (kx - ly + 2) (SF64div x y).
Proof.
  destruct x as [sx|sx| |sx mx ex], y as [sy|sy| |sy my ey]; try done.
  cbn [SF_below SF_above]. intros Hx Hy HK.
  unfold SF64div, SFdiv, SFdiv_core_binary. stdlib_names. cbn [Zdigits2].
  set (dx := Z.pos (digits2_pos mx)) in *. set (dy := Z.pos (digits2_pos my)) in *.
  assert (0 < dx ∧ 0 < dy) as [Hdx Hdy0] by (subst dx dy; lia).
  set (e' := Z.min _ _).
  assert (He' : e' ≤ fexp prec emax (dx + ex - (dy + ey)) ∧ e' ≤ ex - ey)
    by (subst e'; lia).
  unfold fexp, SpecFloat.emin, prec, emax in He'. stdlib_names.
  set (m' := match ex - ey - e' with Z0 => _ | Zpos _ => _ | Zneg _ => _ end).
  assert (Hm' : 0 ≤ m' ∧ (0 < m' → Zdigits2 m' = dx + (ex - ey - e'))).
  { subst m'. destruct (ex - ey - e') as [|s|s] eqn:Hs.
    - split; [lia|]. intros _. cbn [Zdigits2]. lia.
    - split; [apply Z.shiftl_nonneg; lia|]. intros _.
      by rewrite Zdigits2_shiftl by lia.
    - split; [lia|]. lia. }
  destruct Hm' as [Hm'0 Hm'd].
  pose proof (digits2_pos_log2 my) as Hdy. fold dy in Hdy. clearbody m' e' dx dy.
  pose proof (Z_div_mod m' (Z.pos my) ltac:(lia)) as Hdiv.
  destruct (Z.div_eucl m' (Z.pos my)) as [q r]. destruct Hdiv as [Heq Hmod].
  assert (0 ≤ q) as Hq0 by nia.
  replace (kx - ly + 2) with (kx - ly + 1 + 1) by lia.
  apply binary_round_aux_below; [done| | |done].
  - destruct (Z.eq_dec q 0) as [->|Hq1]; [cbn [Zdigits2]; lia|].
    assert (0 < m') as Hpos by nia. specialize (Hm'd Hpos).
    rewrite Zdigits2_log2 in Hm'd by lia. rewrite Zdigits2_log2 by lia.
    pose proof (Z.log2_mul_below q (Z.pos my) ltac:(lia) ltac:(lia)) as Hb.
    pose proof (Z.log2_le_mono (q * Z.pos my) m' ltac:(lia)) as Hmono.
    lia.
  - lia.
Qed.

Lemma valid_digits (s : bool) (m : positive) (e : Z) :
  valid_binary (S754_finite s m e) = true → Z.pos (digits2_pos m) ≤ 53.
Proof.
  unfold valid_binary, bounded, canonical_mantissa, fexp, SpecFloat.emin, prec, emax.
  stdlib_names. intros [Hc _]%andb_prop. apply Z.eqb_eq in Hc. lia.
Qed.

Lemma coordinate_below (c : float) :
  (abs c <=? 1000)%float = true → SF_below 10 (Prim2SF c).
Proof.
  rewrite leb_spec, abs_spec.
  change (Prim2SF 1000) with (S754_finite false 8796093022208000 (-43)).
  pose proof (Prim2SF_valid c) as Hv.
  destruct (Prim2SF c) as [[]|[]| |s m e]; try done.
  apply valid_digits in Hv. cbn [SFabs SF_below].
  unfold SFleb, SFcompare. stdlib_names.
  destruct (Z.compare_spec e (-43)); try done; lia.
Qed.

Lemma SF_below_finite (k : Z) (x : float) : SF_below k (Prim2SF x) → is_finite x = true.
Proof.
  unfold is_finite, is_infinity.
  rewrite is_nan_Prim2SF, FloatAxioms.eqb_spec, abs_spec.
  change (Prim2SF infinity) with (S754_infinity false).
  by destruct (Prim2SF x) as [[]|[]| |[] m e].
Qed.

Lemma normalized_finite (p : Landmark) : normalized p → finite_landmark p.
Proof.
  intros [Hx Hy]. split; eapply SF_below_finite, coordinate_below; eassumption.
Qed.

Lemma clamp_below (k : Z) (c : float) :
  SF_below k (Prim2SF c) →
  SF_below (Z.max k (-19)) (Prim2SF (Math_max 1e-6 c)).
Proof.
  intros Hc.
  assert (Hsmall : SF_below (Z.max k (-19)) (Prim2SF 1e-6))
    by (rewrite Prim2SF_1em6; cbn; lia).
  assert (Hc' : SF_below (Z.max k (-19)) (Prim2SF c))
    by (eapply SF_below_le; [done|lia]).
  unfold Math_max. change (is_nan 1e-6) with false. cbn [orb].
  destruct (is_nan c) eqn:Hnan.
  { rewrite is_nan_Prim2SF in Hnan. by destruct (Prim2SF c). }
  destruct (1e-6 <? c)%float; [done|].
  destruct (c <? 1e-6)%float; [done|].
  by destruct (get_sign 1e-6).
Qed.

Lemma above_of_leb (k : Z) (d : float) :
  (1e-6 <=? d)%float = true → SF_below k (Prim2SF d) → SF_above (-19) (Prim2SF d).
Proof.
  rewrite leb_spec, Prim2SF_1em6.
  pose proof (Prim2SF_valid d) as Hv.
  destruct (Prim2SF d) as [[]|[]| |[] m e]; try done.
  intros Hle _. destruct (clamped_normal m e Hv Hle) as [Hd He].
  cbn [SF_above]. rewrite Hd. lia.
Qed.

Lemma distance_below (a b : Landmark) :
  normalized a → normalized b → SF_below 28 (Prim2SF (distance a b)).
Proof.
  intros [Hax Hay] [Hbx Hby]. apply coordinate_below in Hax, Hay, Hbx, Hby.
  unfold distance, Math_sqrt. cbn zeta.
  rewrite sqrt_spec, add_spec, !mul_spec, !sub_spec.
  pose proof (SFsub_below 10 10 _ _ Hax Hbx ltac:(lia)) as Hdx.
  pose proof (SFsub_below 10 10 _ _ Hay Hby ltac:(lia)) as Hdy.
  change (Z.max 10 10 + 2)%Z with 12%Z in Hdx, Hdy.
  pose proof (SFmul_below 12 12 _ _ Hdx Hdx ltac:(lia)) as Hxx.
  pose proof (SFmul_below 12 12 _ _ Hdy Hdy ltac:(lia)) as Hyy.
  change (12 + 12 + 1)%Z with 25%Z in Hxx, Hyy.
  pose proof (SFadd_below 25 25 _ _ Hxx Hyy ltac:(lia)) as Hsum.
  change (Z.max 25 25 + 2)%Z with 27%Z in Hsum.
  apply (SFsqrt_below 27); [|exact Hsum|lia].
  apply SFadd_signed; apply SFmul_self.
  - by destruct (SF64sub (Prim2SF (lm_x a)) _).
  - by destruct (SF64sub (Prim2SF (lm_y a)) _).
Qed.

End Magnitude.


(** The mouth openness of normalized landmarks is a finite number. *)
Lemma mouth_ratio_finite (up down l r : Landmark) :
  normalized up → normalized down → normalized l → normalized r →
  is_finite (distance up down / Math_max 1e-6 (distance l r)) = true.
Proof.
  intros Hup Hdown Hl Hr.
  pose proof (distance_below up down Hup Hdown) as Hnum.
  pose proof (clamp_below 28 _ (distance_below l r Hl Hr)) as Hden.
  change (Z.max 28 (-19)) with 28%Z in Hden.
  assert ((1e-6 <=? Math_max 1e-6 (distance l r)) = true) as Hle.
  { destruct (guarded_mouth (distance l r)) as (_ & _ & Hg). apply Hg.
    apply distance_number; by apply normalized_finite. }
  pose proof (above_of_leb 28 _ Hle Hden) as Hlow.
  apply (SF_below_finite 49). rewrite div_spec.
  exact (SFdiv_below 28 (-19) _ _ Hnum Hlow ltac:(lia)).
Qed.

(** The eye aspect ratio of normalized landmarks is a finite number. *)
Lemma ear_ratio_finite (p1 p2 p3 p4 p5 p6 : Landmark) :
  normalized p1 → normalized p2 → normalized p3 →
  normalized p4 → normalized p5 → normalized p6 →
  is_finite ((distance p2 p6 + distance p3 p5) / (2.0 * Math_max 1e-6 (distance p1 p4)))
  = true.
Proof.
  intros H1 H2 H3 H4 H5 H6.
  pose proof (SFadd_below 28 28 _ _ (distance_below p2 p6 H2 H6)
                (distance_below p3 p5 H3 H5) ltac:(lia)) as Hnum.
  pose proof (clamp_below 28 _ (distance_below p1 p4 H1 H4)) as Hclamp.
  change (Z.max 28 28 + 2)%Z with 30%Z in Hnum.
  change (Z.max 28 (-19)) with 28%Z in Hclamp.
  assert (SF_below 2 (Prim2SF 2.0)) as Htwo by (rewrite Prim2SF_two; cbn; lia).
  pose proof (SFmul_below 2 28 _ _ Htwo Hclamp ltac:(lia)) as Hden.
  change (2 + 28 + 1)%Z with 31%Z in Hden. rewrite <- mul_spec in Hden.
  assert ((1e-6 <=? 2.0 * Math_max 1e-6 (distance p1 p4)) = true) as Hle.
  { destruct (guarded_ear (distance p1 p4)) as (_ & _ & Hg). apply Hg.
    apply distance_number; by apply normalized_finite. }
  pose proof (above_of_leb 31 _ Hle Hden) as Hlow.
  apply (SF_below_finite 51). rewrite div_spec, add_spec.
  exact (SFdiv_below 30 (-19) _ _ Hnum Hlow ltac:(lia)).
Qed.

(** ** Reads under the length guards *)

Lemma lookup_total_Some (l : list Landmark) (i : nat) :
  (i < length l)%nat → l !! i = Some (l !!! i).
Proof. apply list_lookup_lookup_total_lt. Qed.

Lemma mouthOpen_of_face (face : list Landmark) :
  (468 ≤ length face)%nat → mouthOpen_of face = Some (spec_mouthOpenness face).
Proof.
  intros Hlen. unfold mouthOpen_of, MOUTH_UP, MOUTH_DOWN, FACE_LEFT, FACE_RIGHT.
  rewrite !lookup_total_Some by lia. reflexivity.
Qed.

Lemma computeEAR_face (face : list Landmark) (i1 i2 i3 i4 i5 i6 : nat) :
  (i1 < length face)%nat → (i2 < length face)%nat → (i3 < length face)%nat →
  (i4 < length face)%nat → (i5 < length face)%nat → (i6 < length face)%nat →
  computeEAR face [i1; i2; i3; i4; i5; i6]
  = spec_EAR (face !!! i1) (face !!! i2) (face !!! i3)
             (face !!! i4) (face !!! i5) (face !!! i6).
Proof.
  intros. unfold computeEAR, computeEAR_body, at_index.
  cbn [lookup list_lookup mbind option_bind].
  rewrite !lookup_total_Some by done. reflexivity.
Qed.

(** ** The mouth buffer *)

Lemma fold_left_s_v (mBuf : list MouthSample) (acc : float) :
  fold_left (λ s x, s + s_v x) mBuf acc
  = fold_left (λ s d, s + d) (map s_v mBuf) acc.
Proof. revert acc. induction mBuf as [|x mBuf IH]; intros acc; [done|apply IH]. Qed.

Lemma avg_of_spec (mBuf : list MouthSample) :
  avg_of mBuf = spec_mean (map s_v mBuf).
Proof. unfold avg_of, spec_mean. by rewrite fold_left_s_v, length_map. Qed.

(** The indexed reads [mBuf[i]] of line 153 are the predecessors. *)
Lemma diffs_from (mBuf : list MouthSample) (rest : list MouthSample) :
  ∀ (k : nat) (a : MouthSample),
    mBuf !! k = Some a →
    (∀ i x, rest !! i = Some x → mBuf !! (S k + i)%nat = Some x) →
    mapM (λ '(i, x), prev ← mBuf !! i; Some (Math_abs (s_v x - s_v prev)))
         (imap (λ i x, ((k + i)%nat, x)) rest)
    = Some (spec_successive (s_v a) (map s_v rest)).
Proof.
  induction rest as [|x rest IH]; intros k a Ha Hrest; [done|].
  cbn [imap mapM map spec_successive]. rewrite Nat.add_0_r, Ha.
  cbn [mbind option_bind].
  rewrite (imap_ext _ (λ i y, ((S k + i)%nat, y)))
    by (intros; unfold compose; f_equal; lia).
  rewrite (IH (S k) x).
  - done.
  - specialize (Hrest 0%nat x eq_refl). by rewrite Nat.add_0_r in Hrest.
  - intros i y Hy. replace (S (S k) + i)%nat with (S k + S i)%nat by lia.
    by apply Hrest.
Qed.

Lemma diffs_of_spec (mBuf : list MouthSample) :
  diffs_of mBuf = Some (spec_absDiffs (map s_v mBuf)).
Proof.
  unfold diffs_of. destruct mBuf as [|a rest]; [done|].
  cbn [drop map spec_absDiffs].
  rewrite (imap_ext _ (λ i y, ((0 + i)%nat, y))) by done.
  by apply diffs_from.
Qed.

(** With no difference to average the handler takes 0 and the mean is
    0/0: neither exceeds the threshold. *)
Lemma meanDiff_of_spec (diffs : list float) :
  (meanDiff_of diffs >? 0.008) = (spec_mean diffs >? 0.008).
Proof. unfold meanDiff_of. destruct diffs; [|done]. reflexivity. Qed.

Lemma push_sample_length (mBuf : list MouthSample) (s : MouthSample) :
  (length mBuf ≤ 31)%nat → (length (push_sample mBuf s) ≤ 31)%nat.
Proof.
  intros Hlen. unfold push_sample. rewrite length_app. cbn [length].
  destruct (decide _); [rewrite length_drop|]; lia.
Qed.

Lemma push_sample_values (b1 b2 : list MouthSample) (s1 s2 : MouthSample) :
  map s_v b1 = map s_v b2 → s_v s1 = s_v s2 →
  map s_v (push_sample b1 s1) = map s_v (push_sample b2 s2).
Proof.
  intros Hb Hs. unfold push_sample.
  assert (length b1 = length b2) as ->
    by (rewrite <- (length_map s_v b1), Hb; apply length_map).
  rewrite !map_app. cbn [map]. rewrite Hs. f_equal.
  destruct (decide _); [|done]. by rewrite <- !skipn_map, Hb.
Qed.

(** ** The handler, branch by branch *)

Lemma faceSignals_face (face : list Landmark) (now : Z) (mBuf : list MouthSample) :
  (468 ≤ length face)%nat →
  faceSignals (Some face) now mBuf
  = let mBuf' := push_sample mBuf (mkSample now (spec_mouthOpenness face)) in
    Some (mBuf', computeEAR face RIGHT_EYE >? 0.20, computeEAR face LEFT_EYE >? 0.20,
          spec_speaking (map s_v mBuf')).
Proof.
  intros Hlen. unfold faceSignals. rewrite decide_True by done.
  rewrite mouthOpen_of_face by done. cbn [mbind option_bind].
  rewrite diffs_of_spec. cbn [mbind option_bind].
  by rewrite avg_of_spec, meanDiff_of_spec.
Qed.

Lemma faceSignals_no_face (face : option (list Landmark)) (now : Z)
    (mBuf : list MouthSample) :
  (∀ f, face = Some f → (length f < 468)%nat) →
  faceSignals face now mBuf = Some (mBuf, true, true, false).
Proof.
  intros Hshort. unfold faceSignals. destruct face as [f|]; [|done].
  rewrite decide_False; [done|]. specialize (Hshort f eq_refl). lia.
Qed.

(** The handler always computes its signals: no read it makes under a
    length guard is out of range. *)
Lemma onResults_returns (env : Render) (refs : Refs) (now : Z) (results : Results) :
  ∃ mBuf rightOpen leftOpen speak,
    faceSignals (faceLandmarks results) now (mouthBufRef refs)
    = Some (mBuf, rightOpen, leftOpen, speak)
    ∧ onResults env refs now results
      = Some (mkOutcome
                (mkRefs mBuf (movement (nose_of results) (lastNoseRef refs)).2)
                (mkSignals (fingerCount_of results) rightOpen leftOpen speak
                           (movement (nose_of results) (lastNoseRef refs)).1)
                (drawOverlay env (faceLandmarks results) 640)).
Proof.
  assert (is_Some (faceSignals (faceLandmarks results) now (mouthBufRef refs)))
    as [[[[mBuf r] l] s] Hface].
  { destruct (faceLandmarks results) as [f|]; [|by eexists].
    destruct (decide (468 ≤ length f)%nat).
    - rewrite faceSignals_face by done. by eexists.
    - rewrite faceSignals_no_face; [by eexists|]. intros ? [= <-]. lia. }
  exists mBuf, r, l, s. split; [done|].
  unfold onResults. rewrite Hface. cbn [mbind option_bind].
  by destruct (movement _ _).
Qed.

(** ** Counting fingers *)

Ltac hand21 hand H :=
  do 21 (destruct hand as [|? hand]; [discriminate H|]);
  destruct hand; [clear H|discriminate H].

Lemma countFingersFromHand_spec (hand : list Landmark) :
  length hand = 21%nat → countFingersFromHand hand = spec_fingerCount hand.
Proof.
  intros H. hand21 hand H.
  unfold countFingersFromHand, countFingers_body, spec_fingerCount, spec_thumb_out,
    spec_fingers, spec_finger_up, thumb_same_side, JS_gt.
  cbn -[Z.add Z.of_nat ltb abs sub].
  repeat match goal with
         | |- context [PrimFloat.ltb ?a ?b] => destruct (PrimFloat.ltb a b)
         end; reflexivity.
Qed.

Lemma for_each_range (hand : list Landmark) (idxs : list nat) :
  ∀ c c', for_each hand c idxs = Some c' →
          (c ≤ c' ≤ c + Z.of_nat (length idxs))%Z.
Proof.
  induction idxs as [|i idxs IH]; intros c c' Hc; cbn in Hc.
  - simplify_eq. cbn. lia.
  - destruct (finger_step hand c i) as [c1|] eqn:Hstep; [|done].
    cbn in Hc. apply IH in Hc. cbn [length].
    unfold finger_step in Hstep.
    destruct (TIP !! i ≫= _); [|done]. destruct (PIP !! i ≫= _); [|done].
    cbn in Hstep. destruct (_ <? _); simplify_eq; lia.
Qed.

Lemma countFingersFromHand_range (hand : list Landmark) :
  (0 ≤ countFingersFromHand hand ≤ 5)%Z.
Proof.
  unfold countFingersFromHand, countFingers_body.
  destruct (for_each hand 0 [1; 2; 3; 4]%nat) as [c|] eqn:Hc; [|cbn; lia].
  apply for_each_range in Hc. cbn in Hc. cbn [mbind option_bind].
  destruct (hand !! 0%nat); [|cbn; lia]. cbn [mbind option_bind].
  destruct (hand !! 4%nat); [|cbn; lia]. cbn [mbind option_bind].
  destruct (_ >? _); [|cbn; lia].
  destruct (thumb_same_side _ _ _) as [[]|]; cbn; lia.
Qed.

Lemma fingerCount_of_range (results : Results) :
  (0 ≤ fingerCount_of results ≤ 5)%Z.
Proof.
  unfold fingerCount_of. destruct (handLandmarks results) as [[p|h]|]; [lia| |lia].
  destruct (decide _); [apply countFingersFromHand_range|lia].
Qed.

(** When the hand results are arrays of hands, the handler counts the
    fingers of the hand detected, right hand first. *)
Lemma fingerCount_of_hands (face pose : option (list Landmark))
    (rhands lhands : list (list Landmark)) :
  fingerCount_of (mkResults face (array_of_hands lhands) (array_of_hands rhands) pose)
  = match spec_detected_hand rhands lhands with
    | Some hand => if decide (length hand = 21%nat) then spec_fingerCount hand else 0%Z
    | None => 0%Z
    end.
Proof.
  unfold fingerCount_of, handLandmarks, spec_detected_hand. cbn.
  destruct rhands as [|r rhands]; cbn.
  - destruct lhands as [|l lhands]; cbn; [done|].
    destruct (decide _); [by apply countFingersFromHand_spec|done].
  - destruct (decide _); [by apply countFingersFromHand_spec|done].
Qed.

(** ** The component's runs *)

Lemma registered_step (a a' : App) (e : Event) (ops : list CanvasOp) :
  step a e = Some (a', ops) → registered a' = registered a.
Proof.
  destruct e as [now results|]; cbn; intros H; [|by simplify_eq].
  destruct (onResults _ _ _ _); by simplify_eq/=.
Qed.

Lemma run_reachable (es : list Event) :
  ∀ a a' huds, reachable a → run a es = Some (a', huds) → reachable a'.
Proof.
  induction es as [|e es IH]; intros a a' huds Ha Hrun; cbn in Hrun.
  - by simplify_eq.
  - destruct (step a e) as [[a1 ops]|] eqn:Hstep; [|done]. cbn in Hrun.
    destruct (run a1 es) as [[a2 huds']|] eqn:Hrest; [|done].
    simplify_eq/=. eapply IH; [|done]. by eapply reach_step.
Qed.

(** ** The claims *)

(** C1, as stated, fails: the same frame handled with two different
    accumulated states gives different speaking and moving signals.  On
    [sample_results] with empty refs the handler reports not speaking and
    leaves [moving] alone; with one buffered sample and a recorded nose it
    reports speaking and moving. *)
Lemma signals_depend_on_refs :
  signals <$> onResults initialRender initialRefs 0 sample_results
  = Some (mkSignals 0 false false false None)
  ∧ signals <$> onResults initialRender later_refs 0 sample_results
    = Some (mkSignals 0 false false true (Some true)).
Proof. split; vm_compute; reflexivity. Qed.

(** C1, amended: the finger count and the two eye flags are computed from
    the frame's landmarks alone, whatever the render, the refs and the
    clock; the speaking flag depends besides on the values in the mouth
    buffer only, and the argument of [setMoving] on the recorded nose
    only. *)
Theorem signals_of_the_frame (env1 env2 : Render) (refs1 refs2 : Refs)
    (now1 now2 : Z) (results : Results) :
  ∃ out1 out2,
    onResults env1 refs1 now1 results = Some out1
    ∧ onResults env2 refs2 now2 results = Some out2
    ∧ setFingerCount (signals out1) = setFingerCount (signals out2)
    ∧ setLeftEyeOpen (signals out1) = setLeftEyeOpen (signals out2)
    ∧ setRightEyeOpen (signals out1) = setRightEyeOpen (signals out2)
    ∧ (map s_v (mouthBufRef refs1) = map s_v (mouthBufRef refs2) →
       setSpeaking (signals out1) = setSpeaking (signals out2))
    ∧ (lastNoseRef refs1 = lastNoseRef refs2 →
       setMoving (signals out1) = setMoving (signals out2)).
Proof.
  destruct (onResults_returns env1 refs1 now1 results)
    as (b1 & r1 & l1 & s1 & Hf1 & ->).
  destruct (onResults_returns env2 refs2 now2 results)
    as (b2 & r2 & l2 & s2 & Hf2 & ->).
  do 2 eexists. split_and!; try done; cbn [signals setLeftEyeOpen
    setRightEyeOpen setSpeaking setMoving].
  - destruct (faceLandmarks results) as [f|]; [|by simplify_eq/=].
    destruct (decide (468 ≤ length f)%nat).
    + rewrite faceSignals_face in Hf1, Hf2 by done. by simplify_eq/=.
    + rewrite faceSignals_no_face in Hf1, Hf2 by (intros ? [= <-]; lia).
      by simplify_eq.
  - destruct (faceLandmarks results) as [f|]; [|by simplify_eq/=].
    destruct (decide (468 ≤ length f)%nat).
    + rewrite faceSignals_face in Hf1, Hf2 by done. by simplify_eq/=.
    + rewrite faceSignals_no_face in Hf1, Hf2 by (intros ? [= <-]; lia).
      by simplify_eq.
  - intros Hbuf. destruct (faceLandmarks results) as [f|]; [|by simplify_eq/=].
    destruct (decide (468 ≤ length f)%nat).
    + rewrite faceSignals_face in Hf1, Hf2 by done. simplify_eq/=.
      f_equal. by apply push_sample_values.
    + rewrite faceSignals_no_face in Hf1, Hf2 by (intros ? [= <-]; lia).
      by simplify_eq.
  - by intros ->.
Qed.

(** C2: on a frame whose face has at least 468 landmarks the handler appends
    the frame's normalized mouth openness (the distance between landmarks 13
    and 14 over [max(1e-6, ·)] of the distance between landmarks 234 and
    454) to the buffer, after dropping the oldest sample of a buffer of more
    than 30, and reports speaking exactly when the mean of the buffered
    values, the new one included, exceeds 0.03 and the mean absolute
    difference between successive buffered values exceeds 0.008. *)
Theorem speaking_detection (env : Render) (refs : Refs) (now : Z)
    (results : Results) (face : list Landmark) :
  faceLandmarks results = Some face →
  (468 ≤ length face)%nat →
  ∃ out,
    onResults env refs now results = Some out
    ∧ mouthBufRef (refs_after out)
      = (if decide (30 < length (mouthBufRef refs))%nat
         then drop 1 (mouthBufRef refs) else mouthBufRef refs)
        ++ [mkSample now (spec_mouthOpenness face)]
    ∧ setSpeaking (signals out)
      = spec_speaking (map s_v (mouthBufRef (refs_after out))).
Proof.
  intros Hface Hlen.
  destruct (onResults_returns env refs now results)
    as (b & r & l & s & Hf & ->).
  rewrite Hface, faceSignals_face in Hf by done. simplify_eq/=.
  by eexists.
Qed.

Lemma speaking_detection_witness :
  faceLandmarks sample_results = Some sample_face
  ∧ (468 ≤ length sample_face)%nat
  ∧ ∃ out,
      onResults initialRender later_refs 7 sample_results = Some out
      ∧ mouthBufRef (refs_after out)
        = (if decide (30 < length (mouthBufRef later_refs))%nat
           then drop 1 (mouthBufRef later_refs) else mouthBufRef later_refs)
          ++ [mkSample 7 (spec_mouthOpenness sample_face)]
      ∧ setSpeaking (signals out)
        = spec_speaking (map s_v (mouthBufRef (refs_after out))).
Proof.
  assert (H1 : faceLandmarks sample_results = Some sample_face) by reflexivity.
  assert (H2 : (468 ≤ length sample_face)%nat) by (vm_compute; lia).
  exact (conj H1 (conj H2
           (speaking_detection initialRender later_refs 7 sample_results
                               sample_face H1 H2))).
Defined.

(** On the sample frame the openness pushed is not zero and the handler,
    with one closed-mouth sample in its buffer, reports speaking. *)
Example speaking_on_sample :
  (spec_mouthOpenness sample_face >? 0.2) = true
  ∧ (λ out, (length (mouthBufRef (refs_after out)), setSpeaking (signals out)))
      <$> onResults initialRender later_refs 7 sample_results
    = Some (2%nat, true).
Proof. split; vm_compute; reflexivity. Qed.

(** X20: on an array of 21 landmarks [countFingersFromHand] counts the
    fingers among index, middle, ring and pinky whose tip is strictly above
    its PIP joint, plus one for the thumb exactly when its tip is more than
    0.03 from the wrist in [x] and tip and IP joint are on the same side of
    the wrist; whatever the frame, the count the handler reports is between
    0 and 5; and on hand results that are arrays of hands it is the count of
    the hand detected, right hand first, when that hand has 21 landmarks,
    and 0 otherwise. *)
Theorem finger_counting_on_arrays :
  (∀ hand : list Landmark,
     length hand = 21%nat → countFingersFromHand hand = spec_fingerCount hand)
  ∧ (∀ (env : Render) (refs : Refs) (now : Z) (results : Results),
       ∃ out,
         onResults env refs now results = Some out
         ∧ (0 ≤ setFingerCount (signals out) ≤ 5)%Z)
  ∧ (∀ (env : Render) (refs : Refs) (now : Z) (face pose : option (list Landmark))
       (rhands lhands : list (list Landmark)),
       ∃ out,
         onResults env refs now
           (mkResults face (array_of_hands lhands) (array_of_hands rhands) pose)
         = Some out
         ∧ setFingerCount (signals out)
           = match spec_detected_hand rhands lhands with
             | Some hand =>
                 if decide (length hand = 21%nat) then spec_fingerCount hand else 0%Z
             | None => 0%Z
             end).
Proof.
  split; [apply countFingersFromHand_spec|]. split.
  - intros env refs now results.
    destruct (onResults_returns env refs now results)
      as (b & r & l & s & _ & ->).
    eexists. split; [done|]. apply fingerCount_of_range.
  - intros env refs now face pose rhands lhands.
    destruct (onResults_returns env refs now
                (mkResults face (array_of_hands lhands) (array_of_hands rhands) pose))
      as (b & r & l & s & _ & ->).
    eexists. split; [done|]. apply fingerCount_of_hands.
Qed.

(** With both hands in the frame the count is the right hand's: a right
    fist hides a left hand showing five fingers. *)
Example right_fist_hides_left :
  spec_fingerCount sample_hand = 5%Z
  ∧ spec_fingerCount fist = 0%Z
  ∧ (λ out, setFingerCount (signals out))
      <$> onResults initialRender initialRefs 0 two_hands = Some 0%Z.
Proof. split_and!; vm_compute; reflexivity. Qed.

(** C3 fails on the code.  The Holistic solution sends a detected hand as
    the array of its 21 landmarks; the handler takes element 0 of that
    array, a landmark, for the hand, finds no [length] of 21 on it, and
    reports 0 fingers whatever the hand shows, for a right hand, and for a
    left hand as well.  [sample_hand], 21 landmarks with the five fingers
    out, is reported as 0. *)
Theorem flat_hand_counts_zero :
  (∀ (env : Render) (refs : Refs) (now : Z) (face pose : option (list Landmark))
     (other : option (list HandEntry)) (p : Landmark) (rest : list Landmark),
     (λ out, setFingerCount (signals out))
       <$> onResults env refs now (mkResults face other (flat_hand (p :: rest)) pose)
     = Some 0%Z
     ∧ (λ out, setFingerCount (signals out))
         <$> onResults env refs now (mkResults face (flat_hand (p :: rest)) None pose)
       = Some 0%Z)
  ∧ length sample_hand = 21%nat
  ∧ spec_fingerCount sample_hand = 5%Z
  ∧ (λ out, setFingerCount (signals out))
      <$> onResults initialRender initialRefs 0 holistic_hand_results
    = Some 0%Z.
Proof.
  split_and!; [|reflexivity|vm_compute; reflexivity|vm_compute; reflexivity].
  intros env refs now face pose other p rest. split.
  - destruct (onResults_returns env refs now
                (mkResults face other (flat_hand (p :: rest)) pose))
      as (b & r & l & s & _ & ->).
    reflexivity.
  - destruct (onResults_returns env refs now
                (mkResults face (flat_hand (p :: rest)) None pose))
      as (b & r & l & s & _ & ->).
    reflexivity.
Qed.

(** C4: on a frame whose face has at least 468 landmarks each eye is
    reported open exactly when its eye aspect ratio
    [(A + B) / (2 * max(1e-6, C))] exceeds 0.20, with [A], [B] and [C] the
    distances between the landmarks at the eye's six indices: 33, 160, 158,
    133, 153, 144 for the right eye and 362, 385, 387, 263, 373, 380 for
    the left. *)
Theorem eye_open_detection (env : Render) (refs : Refs) (now : Z)
    (results : Results) (face : list Landmark) :
  faceLandmarks results = Some face →
  (468 ≤ length face)%nat →
  ∃ out,
    onResults env refs now results = Some out
    ∧ setRightEyeOpen (signals out)
      = (spec_EAR (face !!! 33%nat) (face !!! 160%nat) (face !!! 158%nat)
                  (face !!! 133%nat) (face !!! 153%nat) (face !!! 144%nat)
         >? 0.20)
    ∧ setLeftEyeOpen (signals out)
      = (spec_EAR (face !!! 362%nat) (face !!! 385%nat) (face !!! 387%nat)
                  (face !!! 263%nat) (face !!! 373%nat) (face !!! 380%nat)
         >? 0.20).
Proof.
  intros Hface Hlen.
  destruct (onResults_returns env refs now results)
    as (b & r & l & s & Hf & ->).
  rewrite Hface, faceSignals_face in Hf by done. simplify_eq/=.
  eexists. split; [done|]. cbn [signals setRightEyeOpen setLeftEyeOpen].
  unfold RIGHT_EYE, LEFT_EYE. by rewrite !computeEAR_face by lia.
Qed.

Lemma eye_open_detection_witness :
  faceLandmarks sample_results = Some sample_face
  ∧ (468 ≤ length sample_face)%nat
  ∧ ∃ out,
      onResults initialRender initialRefs 0 sample_results = Some out
      ∧ setRightEyeOpen (signals out)
        = (spec_EAR (sample_face !!! 33%nat) (sample_face !!! 160%nat)
                    (sample_face !!! 158%nat) (sample_face !!! 133%nat)
                    (sample_face !!! 153%nat) (sample_face !!! 144%nat)
           >? 0.20)
      ∧ setLeftEyeOpen (signals out)
        = (spec_EAR (sample_face !!! 362%nat) (sample_face !!! 385%nat)
                    (sample_face !!! 387%nat) (sample_face !!! 263%nat)
                    (sample_face !!! 373%nat) (sample_face !!! 380%nat)
           >? 0.20).
Proof.
  assert (H1 : faceLandmarks sample_results = Some sample_face) by reflexivity.
  assert (H2 : (468 ≤ length sample_face)%nat) by (vm_compute; lia).
  exact (conj H1 (conj H2
           (eye_open_detection initialRender initialRefs 0 sample_results
                               sample_face H1 H2))).
Defined.

(** C5: the nose is pose landmark 0 if pose landmarks are present and face
    landmark 1 otherwise; when there is one and a previous nose was
    recorded, [setMoving] is called with whether the displacement
    [sqrt(dx² + dy²)] since that previous nose exceeds 0.003, and when there
    is none it is called with [false].  The previous nose is the one of the
    previous frame: a frame with a nose leaves that nose recorded, so that
    the next frame with a nose reports the displacement between the two; a
    frame without a nose leaves the recorded nose as it was. *)
Theorem head_movement (env : Render) (refs : Refs) (now : Z) (results : Results) :
  ∃ out,
    onResults env refs now results = Some out
    ∧ nose_of results = spec_nose results
    ∧ (∀ nose prev,
         spec_nose results = Some nose → lastNoseRef refs = Some prev →
         setMoving (signals out) = Some (spec_displacement nose prev >? 0.003))
    ∧ (spec_nose results = None → setMoving (signals out) = Some false)
    ∧ (∀ nose, spec_nose results = Some nose →
               lastNoseRef (refs_after out) = Some nose)
    ∧ (spec_nose results = None →
       lastNoseRef (refs_after out) = lastNoseRef refs)
    ∧ (∀ nose env' now' results' nose',
         spec_nose results = Some nose → spec_nose results' = Some nose' →
         ∃ out',
           onResults env' (refs_after out) now' results' = Some out'
           ∧ setMoving (signals out')
             = Some (spec_displacement nose' nose >? 0.003)
           ∧ lastNoseRef (refs_after out') = Some nose').
Proof.
  assert (Hnose : ∀ results, nose_of results = spec_nose results).
  { clear. intros results. unfold nose_of, spec_nose.
    destruct (poseLandmarks results) as [[|p pose]|]; cbn; try done;
      destruct (faceLandmarks results) as [face|]; cbn; try done;
      destruct (decide _) as [|Hshort]; try done;
      symmetry; apply lookup_ge_None; lia. }
  assert (Hmove : ∀ nose prev,
            movement (Some nose) (Some prev)
            = (Some (spec_displacement nose prev >? 0.003), Some nose)).
  { clear. intros [x y] prev. cbn [movement lm_x lm_y]. unfold spec_displacement.
    unfold Math_abs. cbn [lm_x lm_y]. by rewrite !mul_abs_abs. }
  destruct (onResults_returns env refs now results)
    as (b & r & l & s & _ & ->).
  eexists. split; [done|]. cbn [signals setMoving refs_after lastNoseRef].
  rewrite Hnose. split_and!; [done|..].
  - intros nose prev -> ->. by rewrite Hmove.
  - by intros ->.
  - intros [x y] ->. by destruct (lastNoseRef refs).
  - by intros ->.
  - intros nose env' now' results' nose' Hn Hn'.
    destruct (onResults_returns env'
                (mkRefs b (movement (spec_nose results) (lastNoseRef refs)).2)
                now' results')
      as (b' & r' & l' & s' & _ & ->).
    eexists. split; [done|]. cbn [signals setMoving refs_after lastNoseRef].
    rewrite Hnose, Hn, Hn'.
    assert ((movement (Some nose) (lastNoseRef refs)).2 = Some nose) as ->
      by (destruct nose; by destruct (lastNoseRef refs)).
    by rewrite Hmove.
Qed.

(** Three frames with the nose 0.1 lower each time: nothing to report on the
    first, moving on the second and on the third, and the nose recorded
    after each is the frame's own. *)
Example nose_followed :
  (λ r : App * list (list CanvasOp), (moving (state r.1), lastNoseRef (refs r.1)))
    <$> run mount (take 1 three_frames)
  = Some (false, Some (mkLandmark 0.5 0.5))
  ∧ (λ r : App * list (list CanvasOp), (moving (state r.1), lastNoseRef (refs r.1)))
      <$> run mount (take 2 three_frames)
    = Some (true, Some (mkLandmark 0.5 0.6))
  ∧ (λ r : App * list (list CanvasOp), (moving (state r.1), lastNoseRef (refs r.1)))
      <$> run mount three_frames
    = Some (true, Some (mkLandmark 0.5 0.7)).
Proof. split_and!; vm_compute; reflexivity. Qed.

(** C6: each of the two divisions has the denominator written in the code,
    [2.0 * max(1e-6, C)] for the eye aspect ratio and [max(1e-6, C)] for the
    mouth openness, with [C] the distance between two of the landmarks read.
    Whatever the landmarks, that denominator is never zero, so that no
    division by zero occurs, and it is at least 1e-6 as soon as [C] is a
    number, which it is for landmarks with finite coordinates.  For
    landmarks in normalized coordinates the denominator is at least 1e-6 and
    the ratio is a finite number. *)
Theorem guarded_ratios (face : list Landmark) (indices : list nat) :
  (∀ ear, computeEAR_body face indices = Some ear →
     ∃ p1 p2 p3 p4 p5 p6,
       at_index face indices 0 = Some p1 ∧ at_index face indices 1 = Some p2
       ∧ at_index face indices 2 = Some p3 ∧ at_index face indices 3 = Some p4
       ∧ at_index face indices 4 = Some p5 ∧ at_index face indices 5 = Some p6
       ∧ let den := 2.0 * Math_max 1e-6 (spec_distance p1 p4) in
         ear = (spec_distance p2 p6 + spec_distance p3 p5) / den
         ∧ guarded (spec_distance p1 p4) den
         ∧ (finite_landmark p1 → finite_landmark p4 → (1e-6 <=? den) = true)
         ∧ (normalized p1 → normalized p2 → normalized p3 →
            normalized p4 → normalized p5 → normalized p6 →
            (1e-6 <=? den) = true ∧ is_finite ear = true))
  ∧ (∀ mouthOpen, mouthOpen_of face = Some mouthOpen →
       ∃ up down l r,
         face !! MOUTH_UP = Some up ∧ face !! MOUTH_DOWN = Some down
         ∧ face !! FACE_LEFT = Some l ∧ face !! FACE_RIGHT = Some r
         ∧ let den := Math_max 1e-6 (spec_distance l r) in
           mouthOpen = spec_distance up down / den
           ∧ guarded (spec_distance l r) den
           ∧ (finite_landmark l → finite_landmark r → (1e-6 <=? den) = true)
           ∧ (normalized up → normalized down → normalized l → normalized r →
              (1e-6 <=? den) = true ∧ is_finite mouthOpen = true)).
Proof.
  split.
  - intros ear Hear. unfold computeEAR_body in Hear.
    destruct (at_index face indices 0) as [p1|]; [|done].
    destruct (at_index face indices 1) as [p2|]; [|done].
    destruct (at_index face indices 2) as [p3|]; [|done].
    destruct (at_index face indices 3) as [p4|]; [|done].
    destruct (at_index face indices 4) as [p5|]; [|done].
    destruct (at_index face indices 5) as [p6|]; [|done].
    simplify_eq/=. exists p1, p2, p3, p4, p5, p6.
    pose proof (guarded_ear (distance p1 p4)) as Hg.
    split_and!; try done.
    + intros H1 H4. apply Hg. by apply distance_number.
    + intros H1 H2 H3 H4 H5 H6. split.
      * apply Hg. apply distance_number; by apply normalized_finite.
      * by apply ear_ratio_finite.
  - intros m Hm. unfold mouthOpen_of in Hm.
    destruct (face !! MOUTH_UP) as [up|]; [|done].
    destruct (face !! MOUTH_DOWN) as [down|]; [|done].
    destruct (face !! FACE_LEFT) as [l|]; [|done].
    destruct (face !! FACE_RIGHT) as [r|]; [|done].
    simplify_eq/=. exists up, down, l, r.
    pose proof (guarded_mouth (distance l r)) as Hg.
    split_and!; try done.
    + intros Hl Hr. apply Hg. by apply distance_number.
    + intros Hup Hdown Hl Hr. split.
      * apply Hg. apply distance_number; by apply normalized_finite.
      * by apply mouth_ratio_finite.
Qed.

(** The sample face is in normalized coordinates, and its two eye ratios
    and its mouth openness are computed and finite. *)
Lemma guarded_ratios_witness :
  Forall normalized sample_face
  ∧ is_finite <$> computeEAR_body sample_face RIGHT_EYE = Some true
  ∧ is_finite <$> computeEAR_body sample_face LEFT_EYE = Some true
  ∧ is_finite <$> mouthOpen_of sample_face = Some true.
Proof.
  assert (Hnorm : Forall normalized sample_face).
  { unfold sample_face. repeat apply Forall_insert; try done.
    by apply Forall_replicate. }
  assert (Hread : ∀ i p, sample_face !! i = Some p → normalized p).
  { intros i p Hp. by eapply Forall_lookup_1. }
  assert (Hat : ∀ idxs k p, at_index sample_face idxs k = Some p → normalized p).
  { intros idxs k p Hp. unfold at_index in Hp.
    destruct (idxs !! k); [by eapply Hread|done]. }
  split; [done|]. split_and!.
  - destruct (computeEAR_body sample_face RIGHT_EYE) as [ear|] eqn:Hear;
      [|vm_compute in Hear; discriminate Hear].
    destruct (proj1 (guarded_ratios sample_face RIGHT_EYE) ear Hear)
      as (p1 & p2 & p3 & p4 & p5 & p6 & H1 & H2 & H3 & H4 & H5 & H6 & _ & _ & _ & Hfin).
    cbn. f_equal. apply Hfin; by eapply Hat.
  - destruct (computeEAR_body sample_face LEFT_EYE) as [ear|] eqn:Hear;
      [|vm_compute in Hear; discriminate Hear].
    destruct (proj1 (guarded_ratios sample_face LEFT_EYE) ear Hear)
      as (p1 & p2 & p3 & p4 & p5 & p6 & H1 & H2 & H3 & H4 & H5 & H6 & _ & _ & _ & Hfin).
    cbn. f_equal. apply Hfin; by eapply Hat.
  - destruct (mouthOpen_of sample_face) as [m|] eqn:Hm;
      [|vm_compute in Hm; discriminate Hm].
    destruct (proj2 (guarded_ratios sample_face RIGHT_EYE) m Hm)
      as (up & down & l & r & H1 & H2 & H3 & H4 & _ & _ & _ & Hfin).
    cbn. f_equal. apply Hfin; by eapply Hread.
Defined.

(** Outside the normalized coordinates the clamp bounds nothing.  On
    [nan_face], whose landmarks 33 and 234 have a NaN [x], both denominators
    are NaN rather than at least 1e-6, and so are the two ratios; on
    [far_face], where they and a lip and a lid are 1e200 away, numerators
    and denominators are infinite and the ratios NaN again. *)
Example clamp_passes_nan :
  (1e-6 <=? Math_max 1e-6 (distance (nan_face !!! 234%nat) (nan_face !!! 454%nat)))
  = false
  ∧ (1e-6 <=? 2.0 * Math_max 1e-6 (distance (nan_face !!! 33%nat) (nan_face !!! 133%nat)))
    = false
  ∧ is_nan <$> mouthOpen_of nan_face = Some true
  ∧ is_nan <$> computeEAR_body nan_face RIGHT_EYE = Some true
  ∧ Forall finite_landmark far_face
  ∧ is_nan <$> mouthOpen_of far_face = Some true
  ∧ is_nan <$> computeEAR_body far_face RIGHT_EYE = Some true.
Proof.
  split_and!; try (vm_compute; reflexivity).
  unfold far_face, sample_face. repeat apply Forall_insert; try done.
  by apply Forall_replicate.
Qed.

(** The status panel writes exactly five texts, from the values of the
    render the drawing function belongs to. *)
Lemma drawHUD_texts (env : Render) (w : float) :
  texts (drawHUD env w)
  = spec_panel (fingerCount env) (leftEyeOpen env) (rightEyeOpen env)
               (speaking env) (moving env).
Proof.
  unfold drawHUD, roundRect, texts, spec_panel.
  rewrite !omap_app. reflexivity.
Qed.

(** The detector keeps the handler of the first render for good. *)
Lemma registered_first_render (a : App) :
  reachable a → registered a = initialRender.
Proof.
  induction 1 as [|a e a' ops _ IH Hstep]; [done|].
  by rewrite (registered_step _ _ _ _ Hstep).
Qed.

(** Whatever the frames so far and whatever the state they left, the panel
    a frame draws is the one of the initial values, unless the overlay
    raised before drawing it. *)
Lemma panel_of_first_render (a a' : App) (now : Z) (results : Results)
    (ops : list CanvasOp) :
  reachable a → step a (Frame now results) = Some (a', ops) →
  texts ops = [] ∨ texts ops = spec_panel 0 true true false false.
Proof.
  intros Ha Hstep. cbn in Hstep.
  rewrite (registered_first_render a Ha) in Hstep.
  destruct (onResults_returns initialRender (refs a) now results)
    as (b & r & l & s & _ & Hout).
  rewrite Hout in Hstep. simplify_eq/=.
  unfold drawOverlay.
  destruct (faceLandmarks results) as [face|]; [|right; apply drawHUD_texts].
  destruct (mapM _ _); [right; apply drawHUD_texts|by left].
Qed.

(** C7 fails on the code: after the three frames of [three_frames] the
    state holds both eyes closed, speaking and moving, and the panel drawn
    on each of the frames, the last included, still reads the initial
    values: eyes open, not speaking, not moving. *)
Theorem panel_is_stale :
  (λ r : App * list (list CanvasOp), (state r.1, map texts r.2))
    <$> run mount three_frames
  = Some (mkRender "dark" 0 false false true true,
          [spec_panel 0 true true false false;
           spec_panel 0 true true false false;
           spec_panel 0 true true false false]).
Proof. vm_compute. reflexivity. Qed.

(** C8: starting from the empty buffer of the mount, the mouth buffer
    never holds more than 31 entries, whatever the frames handled; a frame
    leaves it alone or pushes one sample, after shifting one off only when
    the length exceeds 30. *)
Theorem mouth_history_bound (a : App) :
  reachable a →
  (length (mouthBufRef (refs a)) ≤ 31)%nat
  ∧ ∀ env now results out,
      onResults env (refs a) now results = Some out →
      let mBuf := mouthBufRef (refs a) in
      let mBuf' := mouthBufRef (refs_after out) in
      (length mBuf' ≤ 31)%nat
      ∧ (mBuf' = mBuf
         ∨ ∃ s, mBuf' = (if decide (30 < length mBuf)%nat
                         then drop 1 mBuf else mBuf) ++ [s]).
Proof.
  intros Ha.
  assert (Hframe : ∀ env refs now results out,
            onResults env refs now results = Some out →
            (length (mouthBufRef refs) ≤ 31)%nat →
            (length (mouthBufRef (refs_after out)) ≤ 31)%nat
            ∧ (mouthBufRef (refs_after out) = mouthBufRef refs
               ∨ ∃ s, mouthBufRef (refs_after out)
                      = (if decide (30 < length (mouthBufRef refs))%nat
                         then drop 1 (mouthBufRef refs) else mouthBufRef refs) ++ [s])).
  { intros env refs now results out Hout Hlen.
    destruct (onResults_returns env refs now results)
      as (b & r & l & s & Hf & Heq).
    rewrite Heq in Hout. simplify_eq/=.
    destruct (faceLandmarks results) as [f|]; [|simplify_eq/=; auto].
    destruct (decide (468 ≤ length f)%nat).
    - rewrite faceSignals_face in Hf by done. simplify_eq/=.
      split; [by apply push_sample_length|right; by eexists].
    - rewrite faceSignals_no_face in Hf by (intros ? [= <-]; lia).
      simplify_eq. auto. }
  assert (Hlen : (length (mouthBufRef (refs a)) ≤ 31)%nat).
  { induction Ha as [|a e a' ops Ha IH Hstep]; [cbn; lia|].
    destruct e as [now results|]; cbn in Hstep; [|by simplify_eq/=].
    destruct (onResults _ _ _ _) as [out|] eqn:Hout; [|done].
    destruct (Hframe _ _ _ _ _ Hout IH) as [Hout' _]. by simplify_eq/=. }
  split; [done|]. intros env now results out Hout.
  exact (Hframe _ _ _ _ _ Hout Hlen).
Qed.

Lemma mouth_history_bound_witness :
  reachable after_forty
  ∧ (length (mouthBufRef (refs after_forty)) ≤ 31)%nat
  ∧ ∀ env now results out,
      onResults env (refs after_forty) now results = Some out →
      let mBuf := mouthBufRef (refs after_forty) in
      let mBuf' := mouthBufRef (refs_after out) in
      (length mBuf' ≤ 31)%nat
      ∧ (mBuf' = mBuf
         ∨ ∃ s, mBuf' = (if decide (30 < length mBuf)%nat
                         then drop 1 mBuf else mBuf) ++ [s]).
Proof.
  assert (H : reachable after_forty).
  { unfold after_forty.
    destruct (run mount forty_frames) as [[a huds]|] eqn:Hrun.
    - exact (run_reachable forty_frames mount a huds reach_mount Hrun).
    - vm_compute in Hrun. discriminate Hrun. }
  exact (conj H (mouth_history_bound after_forty H)).
Defined.

(** The bound of C8 is reached: forty frames with a face leave 31 samples. *)
Example buffer_fills : length (mouthBufRef (refs after_forty)) = 31%nat.
Proof. vm_compute. reflexivity. Qed.

(** C9: on a frame with no face landmarks, or with fewer than 468 of them,
    both eyes are reported open, speaking is reported false and the mouth
    buffer is left as it was. *)
Theorem no_face_fallback (env : Render) (refs : Refs) (now : Z)
    (results : Results) :
  (∀ face, faceLandmarks results = Some face → (length face < 468)%nat) →
  ∃ out,
    onResults env refs now results = Some out
    ∧ setLeftEyeOpen (signals out) = true
    ∧ setRightEyeOpen (signals out) = true
    ∧ setSpeaking (signals out) = false
    ∧ mouthBufRef (refs_after out) = mouthBufRef refs.
Proof.
  intros Hshort.
  destruct (onResults_returns env refs now results)
    as (b & r & l & s & Hf & ->).
  rewrite faceSignals_no_face in Hf by done. simplify_eq.
  by eexists.
Qed.

Lemma no_face_fallback_witness :
  (∀ face, faceLandmarks (mkResults (Some short_face) None None None) = Some face →
           (length face < 468)%nat)
  ∧ ∃ out,
      onResults initialRender later_refs 3 (mkResults (Some short_face) None None None)
      = Some out
      ∧ setLeftEyeOpen (signals out) = true
      ∧ setRightEyeOpen (signals out) = true
      ∧ setSpeaking (signals out) = false
      ∧ mouthBufRef (refs_after out) = mouthBufRef later_refs.
Proof.
  assert (H : ∀ face,
            faceLandmarks (mkResults (Some short_face) None None None) = Some face →
            (length face < 468)%nat).
  { intros face [= <-]. vm_compute. lia. }
  exact (conj H (no_face_fallback initialRender later_refs 3
                   (mkResults (Some short_face) None None None) H)).
Defined.

(** C10: when one of the six landmarks [face[indices[k]]] is missing,
    [computeEAR] returns its default 0.3, which exceeds the threshold 0.20
    of an open eye. *)
Theorem ear_fallback (face : list Landmark) (indices : list nat) (k : nat) :
  (k < 6)%nat →
  at_index face indices k = None →
  computeEAR face indices = 0.3 ∧ (computeEAR face indices >? 0.20) = true.
Proof.
  intros Hk Hmiss.
  assert (Hbody : computeEAR_body face indices = None).
  { unfold computeEAR_body.
    destruct k as [|[|[|[|[|[|k]]]]]]; [..|lia]; rewrite Hmiss;
      repeat (destruct (at_index face indices _); cbn [mbind option_bind]; try done). }
  unfold computeEAR. rewrite Hbody. split; reflexivity.
Qed.

Lemma ear_fallback_witness :
  (0 < 6)%nat
  ∧ at_index short_face LEFT_EYE 0 = None
  ∧ computeEAR short_face LEFT_EYE = 0.3
  ∧ (computeEAR short_face LEFT_EYE >? 0.20) = true.
Proof.
  assert (H1 : (0 < 6)%nat) by lia.
  assert (H2 : at_index short_face LEFT_EYE 0 = None) by reflexivity.
  exact (conj H1 (conj H2 (ear_fallback short_face LEFT_EYE 0 H1 H2))).
Defined.

(** ** The handler on the sample frames *)

Example five_fingers : countFingersFromHand sample_hand = 5%Z.
Proof. vm_compute. reflexivity. Qed.

(** A frame with a hand and neither face nor pose: five fingers, eyes
    open by default, and [setMoving(false)] for want of a nose. *)
Example hand_frame :
  signals <$> onResults initialRender later_refs 0 hand_results
  = Some (mkSignals 5 true true false (Some false)).
Proof. vm_compute. reflexivity. Qed.

(** A first frame with a nose: nothing to compare it with, [setMoving] is
    not called, and the nose is recorded. *)
Example first_nose :
  (λ out, (setMoving (signals out), lastNoseRef (refs_after out)))
    <$> onResults initialRender initialRefs 0 (nose_results sample_face 0.5)
  = Some (None, Some (mkLandmark 0.5 0.5)).
Proof. vm_compute. reflexivity. Qed.

Example short_hand_is_zero :
  countFingersFromHand (replicate 20 sample_point) = 0%Z.
Proof. vm_compute. reflexivity. Qed.

Example sample_ratios :
  is_Some (computeEAR_body sample_face RIGHT_EYE)
  ∧ is_Some (computeEAR_body sample_face LEFT_EYE)
  ∧ is_Some (mouthOpen_of sample_face)
  ∧ Forall finite_landmark sample_face.
Proof.
  split_and!; try (vm_compute; by eexists).
  unfold sample_face. repeat apply Forall_insert; try done.
  by apply Forall_replicate.
Qed.

(** Open eyes are reported open, shut eyes closed. *)
Example eyes_both_ways :
  (λ out, (setRightEyeOpen (signals out), setLeftEyeOpen (signals out)))
    <$> onResults initialRender initialRefs 0
          (mkResults (Some open_eyed_face) None None None)
  = Some (true, true)
  ∧ (λ out, (setRightEyeOpen (signals out), setLeftEyeOpen (signals out)))
      <$> onResults initialRender initialRefs 0 sample_results
    = Some (false, false).
Proof. split; vm_compute; reflexivity. Qed.

(** A face shorter than the overlay expects: the signals are set, and the
    status panel is not drawn. *)
Example short_face_no_panel :
  hud <$> onResults initialRender initialRefs 0
            (mkResults (Some short_face) None None None)
  = Some None.
Proof. vm_compute. reflexivity. Qed.

(** ** Further properties of the code

    What the functions do beyond the claims: the geometry of [distance] and
    of the two ratios, the edges of the finger counter, the handler on a
    still subject, the overlay call by call, and the chips and the theme
    button of the page. *)

(** *** [distance] *)

Section Symmetry.
Local Open Scope Z_scope.

Lemma SFabs_binary_round (m : positive) (e : Z) :
  SFabs (binary_round prec emax true m e) = SFabs (binary_round prec emax false m e).
Proof.
  unfold binary_round, binary_round_aux.
  destruct (shl_align _ _ _) as [mz ez].
  destruct (shr_fexp _ _ _ _ _) as [mrs' e'].
  destruct (shr_fexp _ _ _ _ _) as [mrs'' e''].
  destruct (shr_m mrs''); [done| |done]. by destruct (_ <=? _).
Qed.

Lemma SFabs_binary_normalize_opp (z e : Z) :
  SFabs (binary_normalize prec emax (- z) e false)
  = SFabs (binary_normalize prec emax z e false).
Proof.
  destruct z as [|p|p]; [done|..].
  - change (- Z.pos p) with (Z.neg p). apply SFabs_binary_round.
  - change (- Z.neg p) with (Z.pos p). symmetry. apply SFabs_binary_round.
Qed.

Lemma SFabs_sub_comm (x y : spec_float) :
  SFabs (SF64sub x y) = SFabs (SF64sub y x).
Proof.
  destruct x as [[]|[]| |sx mx ex], y as [[]|[]| |sy my ey]; try done.
  unfold SF64sub, SFsub. stdlib_names. rewrite (Z.min_comm ey ex).
  rewrite <- SFabs_binary_normalize_opp. f_equal. f_equal. lia.
Qed.

Lemma SFsub_self (x : spec_float) :
  SF_finite x → SF64sub x x = S754_zero false.
Proof.
  destruct x as [[]|[]| |s m e]; try done. intros _.
  unfold SF64sub, SFsub. stdlib_names. by rewrite Z.sub_diag.
Qed.

End Symmetry.

Lemma abs_sub_comm (a b : float) : abs (a - b) = abs (b - a).
Proof.
  apply Prim2SF_inj. rewrite !abs_spec, !sub_spec. apply SFabs_sub_comm.
Qed.

Lemma square_sub_comm (a b : float) : (a - b) * (a - b) = (b - a) * (b - a).
Proof.
  rewrite <- (mul_abs_abs (a - b)), (abs_sub_comm a b). apply mul_abs_abs.
Qed.

Lemma sub_self (x : float) : is_finite x = true → x - x = 0.
Proof.
  intros H%is_finite_Prim2SF. apply Prim2SF_inj. rewrite sub_spec.
  by rewrite SFsub_self.
Qed.

(** X1: the distance between two landmarks does not depend on their order,
    bit for bit, NaN and infinite coordinates included. *)
Theorem distance_symmetric (a b : Landmark) : distance a b = distance b a.
Proof.
  unfold distance. cbn zeta.
  by rewrite (square_sub_comm (lm_x a)), (square_sub_comm (lm_y a)).
Qed.

Lemma SF_nonneg_cases (x : spec_float) :
  SF_nonneg x ↔ x = S754_nan ∨ SF_signed false x.
Proof. destruct x; cbn; intuition congruence. Qed.

Lemma SFmul_self_nonneg (d : spec_float) : SF_nonneg (SF64mul d d).
Proof.
  apply SF_nonneg_cases.
  destruct d as [s|s| |s m e] eqn:Hd; [right|right|by left|right];
    rewrite <- Hd; apply SFmul_self; by rewrite Hd.
Qed.

Lemma SFmul_nonneg (x y : spec_float) :
  SF_nonneg x → SF_nonneg y → SF_nonneg (SF64mul x y).
Proof.
  destruct x as [[]|[]| |[] mx ex], y as [[]|[]| |[] my ey]; try done.
  intros _ _. apply SF_nonneg_cases. right. by apply binary_round_aux_signed.
Qed.

Lemma SFadd_nonneg (x y : spec_float) :
  SF_nonneg x → SF_nonneg y → SF_nonneg (SF64add x y).
Proof.
  rewrite !SF_nonneg_cases. intros [->|Hx] [->|Hy]; [by left|by left| |].
  - left. by destruct x as [[]|[]| |[] ? ?].
  - right. by apply SFadd_signed.
Qed.

Lemma SFsqrt_nonneg (x : spec_float) : SF_nonneg x → SF_nonneg (SF64sqrt x).
Proof.
  rewrite !SF_nonneg_cases. intros [->|Hx]; [by left|right]. by apply SFsqrt_signed.
Qed.

Lemma SFdiv_nonneg (x y : spec_float) :
  SF_nonneg x → SF_nonneg y → SF_nonneg (SF64div x y).
Proof.
  destruct x as [[]|[]| |[] mx ex], y as [[]|[]| |[] my ey]; try done.
  intros _ _. unfold SF64div, SFdiv, SFdiv_core_binary. cbn [xorb].
  set (m' := match (_ - _ - _)%Z with Z0 => _ | Zpos _ => _ | Zneg _ => _ end).
  assert (0 ≤ m')%Z as Hm.
  { subst m'. destruct (_ - _ - _)%Z; [done| |done]. by apply Z.shiftl_nonneg. }
  destruct (Z.div_eucl m' (Z.pos my)) as [q r] eqn:Hdiv.
  assert (q = (m' / Z.pos my)%Z) as -> by (unfold Z.div; by rewrite Hdiv).
  apply SF_nonneg_cases. right. apply binary_round_aux_signed.
  by apply Z.div_pos.
Qed.

Lemma distance_nonneg_SF (a b : Landmark) : SF_nonneg (Prim2SF (distance a b)).
Proof.
  unfold distance, Math_sqrt. cbn zeta. rewrite sqrt_spec, add_spec, !mul_spec.
  apply SFsqrt_nonneg, SFadd_nonneg; apply SFmul_self_nonneg.
Qed.

Lemma SF_nonneg_ltb (x : float) : SF_nonneg (Prim2SF x) → (x <? 0) = false.
Proof.
  rewrite ltb_spec. change (Prim2SF 0) with (S754_zero false).
  by destruct (Prim2SF x) as [[]|[]| |[] ? ?].
Qed.

Lemma clamp_nonneg (c : float) : SF_nonneg (Prim2SF (Math_max 1e-6 c)).
Proof.
  destruct (Math_max_clamp c) as [[_ H]|[_ H]]; cbn zeta in H.
  - rewrite is_nan_Prim2SF in H. by destruct (Prim2SF _).
  - rewrite leb_spec, Prim2SF_1em6 in H. by destruct (Prim2SF _) as [[]|[]| |[] ? ?].
Qed.

(** X2: a distance is never below zero, whatever the coordinates: the square
    root of a sum of two squares is a number with a clear sign, or NaN. *)
Theorem distance_never_negative (a b : Landmark) : (distance a b <? 0) = false.
Proof. apply SF_nonneg_ltb, distance_nonneg_SF. Qed.

(** X3: a landmark with finite coordinates is at distance exactly 0 from
    itself. *)
Theorem distance_self (a : Landmark) : finite_landmark a → distance a a = 0.
Proof.
  intros [Hx Hy]. unfold distance, Math_sqrt. cbn zeta.
  rewrite (sub_self _ Hx), (sub_self _ Hy). reflexivity.
Qed.

Lemma distance_self_witness :
  finite_landmark sample_point ∧ distance sample_point sample_point = 0.
Proof.
  assert (H : finite_landmark sample_point) by (split; reflexivity).
  exact (conj H (distance_self sample_point H)).
Defined.

(** *** The two ratios *)

(** X4: neither the eye aspect ratio nor the mouth openness is ever below
    zero, on any face and any index list: numerators and denominators are
    distances (or the clamp), so a ratio is a non-negative number or NaN. *)
Theorem ratios_never_negative (face : list Landmark) (indices : list nat) :
  (computeEAR face indices <? 0) = false
  ∧ ∀ mouthOpen, mouthOpen_of face = Some mouthOpen → (mouthOpen <? 0) = false.
Proof.
  split.
  - unfold computeEAR. destruct (computeEAR_body face indices) as [ear|] eqn:Hear;
      [|reflexivity].
    unfold computeEAR_body in Hear.
    destruct (at_index face indices 0) as [p1|]; [|done].
    destruct (at_index face indices 1) as [p2|]; [|done].
    destruct (at_index face indices 2) as [p3|]; [|done].
    destruct (at_index face indices 3) as [p4|]; [|done].
    destruct (at_index face indices 4) as [p5|]; [|done].
    destruct (at_index face indices 5) as [p6|]; [|done].
    simplify_eq/=.
    apply SF_nonneg_ltb. rewrite div_spec, add_spec, mul_spec.
    apply SFdiv_nonneg; [apply SFadd_nonneg; apply distance_nonneg_SF|].
    apply SFmul_nonneg; [done|apply clamp_nonneg].
  - intros m Hm. unfold mouthOpen_of in Hm.
    destruct (face !! MOUTH_UP) as [up|]; [|done].
    destruct (face !! MOUTH_DOWN) as [down|]; [|done].
    destruct (face !! FACE_LEFT) as [l|]; [|done].
    destruct (face !! FACE_RIGHT) as [r|]; [|done].
    simplify_eq/=.
    apply SF_nonneg_ltb. rewrite div_spec.
    apply SFdiv_nonneg; [apply distance_nonneg_SF|apply clamp_nonneg].
Qed.

Lemma zero_div_not_gt (y t : float) : (0 <? t) = true → (0 / y >? t) = false.
Proof.
  unfold JS_gt. rewrite !ltb_spec, div_spec. change (Prim2SF 0) with (S754_zero false).
  destruct (Prim2SF y) as [[]|[]| |[] ? ?], (Prim2SF t) as [[]|[]| |[] ? ?]; done.
Qed.

Lemma nan_div_not_gt (y t : float) : (nan / y >? t) = false.
Proof.
  unfold JS_gt. rewrite !ltb_spec, div_spec. change (Prim2SF nan) with S754_nan.
  by destruct (Prim2SF t).
Qed.

(** X5: an eye whose lower lid lies on its upper lid (the landmarks at
    positions 1 and 5 of the index list coincide, and so do those at 2 and
    4, with finite coordinates) is below the 0.20 threshold, wherever its
    corners are, NaN corners included: the ratio is 0 or NaN. *)
Theorem shut_lids_closed (face : list Landmark) (indices : list nat)
    (p1 p4 lid1 lid2 : Landmark) :
  at_index face indices 0 = Some p1 → at_index face indices 3 = Some p4 →
  at_index face indices 1 = Some lid1 → at_index face indices 5 = Some lid1 →
  at_index face indices 2 = Some lid2 → at_index face indices 4 = Some lid2 →
  finite_landmark lid1 → finite_landmark lid2 →
  (computeEAR face indices >? 0.20) = false.
Proof.
  intros H0 H3 H1 H5 H2 H4 [X1 Y1] [X2 Y2].
  unfold computeEAR, computeEAR_body. rewrite H0, H1, H2, H3, H4, H5.
  cbn [mbind option_bind default from_option id].
  unfold distance at 1 2. cbn zeta.
  rewrite (sub_self _ X1), (sub_self _ Y1), (sub_self _ X2), (sub_self _ Y2).
  change (Math_sqrt (0 * 0 + 0 * 0) + Math_sqrt (0 * 0 + 0 * 0)) with 0.
  by apply zero_div_not_gt.
Qed.

Lemma shut_lids_closed_witness :
  at_index blink_face RIGHT_EYE 1 = at_index blink_face RIGHT_EYE 5
  ∧ at_index blink_face RIGHT_EYE 2 = at_index blink_face RIGHT_EYE 4
  ∧ (computeEAR blink_face RIGHT_EYE >? 0.20) = false.
Proof.
  split; [reflexivity|split; [reflexivity|]].
  apply (shut_lids_closed blink_face RIGHT_EYE
           (mkLandmark 0.40 0.40) (mkLandmark 0.46 0.40)
           (mkLandmark 0.42 0.399) (mkLandmark 0.44 0.399));
    first [reflexivity | split; reflexivity].
Defined.

(** X6: the eye aspect ratio does not depend on the way round the eye is
    listed: exchanging the two corners, and the upper lid with the lower
    one, gives the same value, also when a landmark is missing. *)
Theorem ear_orientation (face : list Landmark) (i1 i2 i3 i4 i5 i6 : nat) :
  computeEAR face [i4; i6; i5; i1; i3; i2] = computeEAR face [i1; i2; i3; i4; i5; i6].
Proof.
  unfold computeEAR, computeEAR_body, at_index.
  cbn [lookup list_lookup mbind option_bind].
  destruct (face !! i1) as [p1|], (face !! i2) as [p2|], (face !! i3) as [p3|],
           (face !! i4) as [p4|], (face !! i5) as [p5|], (face !! i6) as [p6|];
    cbn [mbind option_bind]; try reflexivity.
  cbn zeta. unfold distance. cbn zeta.
  by rewrite (square_sub_comm (lm_x p6)), (square_sub_comm (lm_y p6)),
             (square_sub_comm (lm_x p5)), (square_sub_comm (lm_y p5)),
             (square_sub_comm (lm_x p4)), (square_sub_comm (lm_y p4)).
Qed.

(** *** The finger counter *)

Lemma for_each_raises (hand : list Landmark) (idxs : list nat) (i : nat) :
  i ∈ idxs → (∀ c, finger_step hand c i = None) →
  ∀ c, for_each hand c idxs = None.
Proof.
  intros Hi Hstep. induction idxs as [|j idxs IH]; intros c.
  - by apply elem_of_nil in Hi.
  - cbn [for_each]. apply elem_of_cons in Hi as [<-|Hi].
    + by rewrite Hstep.
    + destruct (finger_step hand c j); [by apply IH|done].
Qed.

(** X7: on any array of fewer than 21 landmarks [countFingersFromHand]
    returns 0, whatever the fingers it could read: the pinky tip is missing,
    the loop raises on it, and the catch discards the fingers counted so
    far. *)
Theorem short_hand_counts_zero (hand : list Landmark) :
  (length hand < 21)%nat → countFingersFromHand hand = 0%Z.
Proof.
  intros Hlen. unfold countFingersFromHand, countFingers_body.
  rewrite (for_each_raises hand _ 4); [done| |].
  - rewrite !elem_of_cons. auto.
  - intros c. unfold finger_step. cbn.
    by rewrite (proj2 (lookup_ge_None hand 20)) by lia.
Qed.

Lemma short_hand_counts_zero_witness :
  (length (take 20 sample_hand) < 21)%nat
  ∧ countFingersFromHand (take 20 sample_hand) = 0%Z.
Proof.
  assert (H : (length (take 20 sample_hand) < 21)%nat) by (vm_compute; lia).
  exact (conj H (short_hand_counts_zero (take 20 sample_hand) H)).
Defined.

(** X8: on a hand of 21 landmarks the overlay and the counter agree on the
    four fingers: the count is the number of fingertips among index,
    middle, ring and pinky that the overlay draws highlighted, or one more
    (the thumb, which the counter judges by [x] and the overlay by [y]). *)
Theorem dots_agree_with_count (hand : list Landmark) :
  length hand = 21%nat →
  let green := List.filter (λ idx, tip_isUp hand (hand !!! (TIP !!! idx)) idx)
                           [1; 2; 3; 4]%nat in
  (Z.of_nat (length green) ≤ countFingersFromHand hand ≤ Z.of_nat (length green) + 1)%Z.
Proof.
  intros H. rewrite countFingersFromHand_spec by done. hand21 hand H.
  unfold spec_fingerCount, spec_fingers, spec_finger_up, tip_isUp.
  cbn -[Z.add Z.of_nat ltb spec_thumb_out].
  destruct (spec_thumb_out _);
  repeat match goal with
         | |- context [PrimFloat.ltb ?a ?b] => destruct (PrimFloat.ltb a b)
         end; cbn; lia.
Qed.

Lemma dots_agree_with_count_witness :
  length sample_hand = 21%nat
  ∧ let green := List.filter (λ idx, tip_isUp sample_hand
                                       (sample_hand !!! (TIP !!! idx)) idx)
                             [1; 2; 3; 4]%nat in
    (Z.of_nat (length green) ≤ countFingersFromHand sample_hand
     ≤ Z.of_nat (length green) + 1)%Z.
Proof.
  assert (H : length sample_hand = 21%nat) by reflexivity.
  exact (conj H (dots_agree_with_count sample_hand H)).
Defined.

(** *** The handler *)

(** As soon as the right hand result is a non-empty array, the left hand
    result has no effect on anything the handler does: signals, refs and
    panel are those of the frame with any other left hand result, or none. *)
Lemma right_hand_shadows_left (env : Render) (refs : Refs) (now : Z)
    (face : option (list Landmark)) (lhand lhand' : option (list HandEntry))
    (entry : HandEntry) (entries : list HandEntry)
    (pose : option (list Landmark)) :
  onResults env refs now (mkResults face lhand (Some (entry :: entries)) pose)
  = onResults env refs now (mkResults face lhand' (Some (entry :: entries)) pose).
Proof. reflexivity. Qed.

(** X9: a nose that has not moved since the last frame is reported as not
    moving, and stays the recorded nose. *)
Theorem still_nose_not_moving (env : Render) (refs : Refs) (now : Z)
    (results : Results) (nose : Landmark) :
  nose_of results = Some nose →
  lastNoseRef refs = Some nose →
  finite_landmark nose →
  ∃ out,
    onResults env refs now results = Some out
    ∧ setMoving (signals out) = Some false
    ∧ lastNoseRef (refs_after out) = Some nose.
Proof.
  intros Hnose Hprev [Hx Hy].
  destruct (onResults_returns env refs now results) as (b & r & l & s & _ & ->).
  eexists. split; [done|]. cbn. rewrite Hnose, Hprev. cbn.
  split; [|by destruct nose]. unfold Math_abs, Math_sqrt.
  rewrite (sub_self _ Hx), (sub_self _ Hy). reflexivity.
Qed.

Lemma still_nose_not_moving_witness :
  nose_of sample_results = Some sample_point
  ∧ ∃ out,
      onResults initialRender still_refs 2 sample_results = Some out
      ∧ setMoving (signals out) = Some false
      ∧ lastNoseRef (refs_after out) = Some sample_point.
Proof.
  assert (H1 : nose_of sample_results = Some sample_point) by reflexivity.
  assert (H2 : lastNoseRef still_refs = Some sample_point) by reflexivity.
  assert (H3 : finite_landmark sample_point) by (split; reflexivity).
  exact (conj H1 (still_nose_not_moving initialRender still_refs 2 sample_results
                    sample_point H1 H2 H3)).
Defined.

(** X10: once a nose has been recorded, every later frame calls [setMoving]
    and leaves a nose recorded: the recorded nose is never cleared, not even
    by a frame without face and pose. *)
Theorem nose_is_kept (env : Render) (refs : Refs) (now : Z) (results : Results) :
  is_Some (lastNoseRef refs) →
  ∃ out,
    onResults env refs now results = Some out
    ∧ is_Some (setMoving (signals out))
    ∧ is_Some (lastNoseRef (refs_after out)).
Proof.
  intros [prev Hprev].
  destruct (onResults_returns env refs now results) as (b & r & l & s & _ & ->).
  eexists. split; [done|]. cbn. rewrite Hprev.
  destruct (nose_of results); cbn; split; by eexists.
Qed.

Lemma nose_is_kept_witness :
  is_Some (lastNoseRef later_refs)
  ∧ ∃ out,
      onResults initialRender later_refs 0 hand_results = Some out
      ∧ is_Some (setMoving (signals out))
      ∧ is_Some (lastNoseRef (refs_after out)).
Proof.
  assert (H : is_Some (lastNoseRef later_refs)) by (by eexists).
  exact (conj H (nose_is_kept initialRender later_refs 0 hand_results H)).
Defined.

Lemma self_diff (v : float) : abs (v - v) = 0 ∨ abs (v - v) = nan.
Proof.
  assert (Prim2SF (abs (v - v)) = S754_zero false ∨ Prim2SF (abs (v - v)) = S754_nan)
    as [H|H].
  { rewrite abs_spec, sub_spec.
    destruct (Prim2SF v) as [[]|[]| |s m e] eqn:Hv;
      [by left|by left|by right|by right|by right|].
    left. by rewrite SFsub_self by exact I. }
  - left. by apply Prim2SF_inj.
  - right. by apply Prim2SF_inj.
Qed.

Lemma sum_zeros (k : nat) : fold_left (λ s d, s + d) (replicate k 0) 0 = 0.
Proof. induction k; [done|]. cbn. by change (0 + 0) with 0. Qed.

Lemma add_nan (x : float) : x + nan = nan.
Proof.
  apply Prim2SF_inj. rewrite add_spec. change (Prim2SF nan) with S754_nan.
  by destruct (Prim2SF x).
Qed.

Lemma sum_nans (k : nat) (acc : float) :
  fold_left (λ s d, s + d) (replicate (S k) nan) acc = nan.
Proof.
  revert acc. induction k as [|k IH]; intros acc; cbn.
  - apply add_nan.
  - cbn in IH. apply IH.
Qed.

Lemma still_mean (d : float) (k : nat) :
  d = 0 ∨ d = nan → (spec_mean (replicate k d) >? 0.008) = false.
Proof.
  unfold spec_mean. intros [->| ->].
  - rewrite sum_zeros. by apply zero_div_not_gt.
  - destruct k; [by apply zero_div_not_gt|]. rewrite sum_nans. apply nan_div_not_gt.
Qed.

Lemma successive_still (v : float) (vs : list float) :
  Forall (eq v) vs → spec_successive v vs = replicate (length vs) (abs (v - v)).
Proof.
  induction 1 as [|x vs <- _ IH]; [done|]. cbn. by rewrite IH.
Qed.

Lemma still_not_speaking (vs : list float) (v : float) :
  Forall (eq v) vs → spec_speaking vs = false.
Proof.
  intros H. unfold spec_speaking. apply andb_false_intro2.
  destruct H as [|x vs <- H]; cbn [spec_absDiffs].
  - by apply (still_mean 0 0); left.
  - rewrite (successive_still _ _ H). apply still_mean, self_diff.
Qed.

(** X11: a mouth that keeps the openness of every buffered sample is not
    speaking, however wide open it is; in particular the first frame after
    the mount, whose buffer is empty, never reports speaking. *)
Theorem still_mouth_not_speaking (env : Render) (refs : Refs) (now : Z)
    (results : Results) (face : list Landmark) (mouthOpen : float) :
  faceLandmarks results = Some face →
  (468 ≤ length face)%nat →
  mouthOpen_of face = Some mouthOpen →
  Forall (λ s, s_v s = mouthOpen) (mouthBufRef refs) →
  ∃ out,
    onResults env refs now results = Some out
    ∧ setSpeaking (signals out) = false.
Proof.
  intros Hface Hlen Hopen Hstill.
  destruct (onResults_returns env refs now results) as (b & r & l & s & Hf & ->).
  rewrite Hface, faceSignals_face in Hf by done.
  rewrite mouthOpen_of_face in Hopen by done. simplify_eq/=.
  eexists. split; [done|]. cbn.
  apply (still_not_speaking _ (spec_mouthOpenness face)).
  rewrite Forall_map. unfold push_sample. apply Forall_app. split.
  - destruct (decide _); [apply Forall_drop|]; by eapply Forall_impl.
  - by repeat constructor.
Qed.

Lemma still_mouth_not_speaking_witness :
  (468 ≤ length sample_face)%nat
  ∧ Forall (λ s, s_v s = default 0 (mouthOpen_of sample_face)) (mouthBufRef still_refs)
  ∧ ∃ out,
      onResults initialRender still_refs 2 sample_results = Some out
      ∧ setSpeaking (signals out) = false.
Proof.
  assert (H1 : faceLandmarks sample_results = Some sample_face) by reflexivity.
  assert (H2 : (468 ≤ length sample_face)%nat) by (vm_compute; lia).
  assert (H3 : mouthOpen_of sample_face = Some (default 0 (mouthOpen_of sample_face)))
    by reflexivity.
  assert (H4 : Forall (λ s, s_v s = default 0 (mouthOpen_of sample_face))
                      (mouthBufRef still_refs))
    by (repeat constructor).
  exact (conj H2 (conj H4
           (still_mouth_not_speaking initialRender still_refs 2 sample_results
              sample_face _ H1 H2 H3 H4))).
Defined.

(** X12: the mouth buffer is a sliding window: after any number of pushes
    from the empty buffer it holds the last 31 samples pushed, in order. *)
Theorem mouth_window (ss : list MouthSample) :
  fold_left push_sample ss [] = drop (length ss - 31) ss.
Proof.
  induction ss as [|s ss IH] using rev_ind; [done|].
  rewrite fold_left_app. cbn [fold_left]. rewrite IH. unfold push_sample.
  rewrite length_app, length_drop. cbn [length].
  destruct (decide _).
  - rewrite drop_drop, drop_app_le by lia. f_equal. f_equal. lia.
  - rewrite drop_app_le by lia. f_equal. f_equal. lia.
Qed.

(** *** The overlay, call by call *)

Lemma run_stmts_app (a b : list Stmt) :
  run_stmts (a ++ b)
  = if (run_stmts a).2
    then ((run_stmts a).1 ++ (run_stmts b).1, (run_stmts b).2)
    else ((run_stmts a).1, false).
Proof.
  induction a as [|[ops|] a IH]; cbn [app run_stmts].
  - by destruct (run_stmts b).
  - rewrite IH. destruct (run_stmts a) as [t []]; cbn; by rewrite ?app_assoc.
  - done.
Qed.

Lemma run_stmts_finished (stmts : list Stmt) :
  (run_stmts stmts).2 = true ↔ Forall is_Some stmts.
Proof.
  induction stmts as [|[ops|] stmts IH]; cbn [run_stmts].
  - split; [constructor|done].
  - destruct (run_stmts stmts) as [t ok]; cbn in *. rewrite Forall_cons, <- IH.
    split; [intros ->; split; [by eexists|done]|by intros [_ ?]].
  - split; [done|]. intros [[? [=]] _]%Forall_cons.
Qed.

Lemma run_stmts_then (a b : list Stmt) :
  Forall is_Some a →
  run_stmts (a ++ b) = ((run_stmts a).1 ++ (run_stmts b).1, (run_stmts b).2).
Proof.
  intros Ha%run_stmts_finished. by rewrite run_stmts_app, Ha.
Qed.

Lemma run_stmts_stop (a b : list Stmt) :
  ¬ Forall is_Some a → run_stmts (a ++ b) = ((run_stmts a).1, false).
Proof.
  intros Ha. rewrite run_stmts_app. destruct (run_stmts a).2 eqn:Hf; [|done].
  by apply run_stmts_finished in Hf.
Qed.

(** Statements that only draw. *)
Lemma run_stmts_drawing (stmts : list Stmt) :
  Forall (λ st, ∀ ops, st = Some ops → Forall drawing ops) stmts →
  Forall drawing (run_stmts stmts).1.
Proof.
  induction 1 as [|[ops|] stmts Hst _ IH]; cbn [run_stmts]; [constructor| |constructor].
  destruct (run_stmts stmts) as [t ok]; cbn [fst] in *.
  apply Forall_app. split; [by apply Hst|done].
Qed.

Lemma path_to_drawing (i : nat) (xy : float * float) : drawing (path_to i xy).
Proof. unfold path_to. by destruct (decide _). Qed.

Lemma drawPolygon_drawing (pts : list (float * float)) :
  Forall drawing (drawPolygon pts).
Proof.
  unfold drawPolygon. destruct (decide _) as [|n]; [constructor|].
  rewrite !Forall_app. split_and!; [by repeat constructor| |by repeat constructor].
  apply Forall_forall. intros op [i [xy [-> _]]]%elem_of_lookup_imap.
  apply path_to_drawing.
Qed.

Lemma drawPt_drawing (w h pulse : float) (pt : option Landmark) (color : string)
    (r : float) (ops : list OverlayOp) :
  drawPt w h pulse pt color r = Some ops → Forall drawing ops.
Proof. destruct pt as [p|]; [|done]. cbn. intros [= <-]. by repeat constructor. Qed.

Lemma face_stmts_drawing (env : Render) (face : list Landmark) (w h sp : float) :
  Forall (λ st, ∀ ops, st = Some ops → Forall drawing ops)
         (face_stmts env face w h sp).
Proof.
  unfold face_stmts. cbn zeta. rewrite !Forall_app. split_and!.
  - repeat constructor. intros ? [= <-]. by repeat constructor.
  - apply Forall_map, Forall_forall. intros ? _ ?. apply drawPt_drawing.
  - apply Forall_map, Forall_forall. intros ? _ ?. apply drawPt_drawing.
  - repeat constructor; intros ?; apply drawPt_drawing.
  - destruct (speaking env); [|constructor]. rewrite !Forall_app. split_and!.
    + repeat constructor. intros ? [= <-]. by repeat constructor.
    + apply Forall_forall. intros st [i [mi [-> _]]]%elem_of_lookup_imap ops.
      destruct (face !! mi); [|done]. cbn. intros [= <-].
      repeat constructor. apply path_to_drawing.
    + repeat constructor. intros ? [= <-]. by repeat constructor.
  - destruct (_ || _); [|constructor]. repeat constructor.
    + intros ? [= <-]. by repeat constructor.
    + intros ops. unfold eye_polygon. destruct (mapM _ _); [|done].
      cbn. intros [= <-]. apply drawPolygon_drawing.
    + intros ops. unfold eye_polygon. destruct (mapM _ _); [|done].
      cbn. intros [= <-]. apply drawPolygon_drawing.
Qed.

Lemma hand_stmts_drawing (hand : list Landmark) (w h sp : float) :
  Forall (λ st, ∀ ops, st = Some ops → Forall drawing ops)
         (hand_stmts hand w h sp).
Proof.
  unfold hand_stmts. rewrite !Forall_app. split_and!.
  - repeat constructor. intros ? [= <-]. by repeat constructor.
  - apply Forall_map, Forall_forall. intros [a b] _ ops. unfold bone.
    cbn [fst snd]. destruct (hand !! a); cbn; [|done].
    destruct (hand !! b); cbn; [|done]. intros [= <-]. by repeat constructor.
  - repeat constructor. intros ? [= <-]. by repeat constructor.
  - apply Forall_forall. intros st [idx [i [-> _]]]%elem_of_lookup_imap ops.
    unfold fingertip. destruct (hand !! i); [|done]. cbn. intros [= <-].
    by repeat constructor.
Qed.

(** Which statements return. *)
Lemma drawPt_is_Some (w h pulse : float) (pt : option Landmark) (color : string)
    (r : float) :
  is_Some (drawPt w h pulse pt color r) ↔ is_Some pt.
Proof.
  destruct pt as [p|]; unfold drawPt, toCanvas; cbn;
    [split; intros _; by eexists|split; intros [? [=]]].
Qed.

Lemma Forall_is_Some_imap {A} (g : nat → A → Stmt) (P : A → Prop) (l : list A) :
  (∀ i x, is_Some (g i x) ↔ P x) → Forall is_Some (imap g l) ↔ Forall P l.
Proof.
  revert g. induction l as [|x l IH]; intros g Hg; cbn [imap].
  - split; constructor.
  - rewrite !Forall_cons, Hg, (IH (g ∘ S)); [done|]. intros i y. apply Hg.
Qed.

Lemma Forall_drawPt (w h pulse : float) (face : list Landmark) (color : string)
    (r : float) (l : list nat) :
  Forall is_Some (map (λ idx, drawPt w h pulse (face !! idx) color r) l)
  ↔ Forall (λ i, is_Some (face !! i)) l.
Proof.
  induction l as [|i l IH]; cbn [map]; [split; constructor|].
  by rewrite !Forall_cons, drawPt_is_Some, IH.
Qed.

Lemma eye_polygon_is_Some (w h : float) (face : list Landmark) (eye : list nat) :
  is_Some (eye_polygon w h face eye) ↔ Forall (λ i, is_Some (face !! i)) eye.
Proof.
  unfold eye_polygon.
  assert (is_Some (mapM (λ i, toCanvas w h <$> face !! i) eye)
          ↔ Forall (λ i, is_Some (face !! i)) eye) as <-.
  { rewrite mapM_is_Some. induction eye as [|i eye IH]; [split; constructor|].
    by rewrite !Forall_cons, IH; cbn; rewrite fmap_is_Some. }
  destruct (mapM _ _); cbn; [split; intros _; by eexists|split; intros [? [=]]].
Qed.

Lemma face_stmts_finish (env : Render) (face : list Landmark) (w h sp : float) :
  Forall is_Some (face_stmts env face w h sp)
  ↔ is_Some (mapM (λ i, face !! i) (overlay_reads env)).
Proof.
  rewrite mapM_is_Some. unfold face_stmts, overlay_reads. cbn zeta.
  change (is_Some ∘ λ i, face !! i) with (λ i, is_Some (face !! i)).
  rewrite !Forall_app, !Forall_drawPt.
  assert (H1 : Forall is_Some [Some [ov_lineWidth 2]])
    by (repeat constructor; by eexists).
  assert (Hsp : ∀ first last : list OverlayOp,
            Forall is_Some
              (if speaking env
               then [Some first]
                    ++ imap (λ i mi, p ← face !! mi; Some [path_to i (toCanvas w h p)])
                            mouthIndices
                    ++ [Some last]
               else [])
            ↔ Forall (λ i, is_Some (face !! i))
                     (if speaking env then mouthIndices else [])).
  { intros first last. destruct (speaking env); [|split; constructor].
    rewrite !Forall_app, (Forall_is_Some_imap _ (λ i, is_Some (face !! i))).
    - split; [by intros (_ & ? & _)|]. intros ?.
      split_and!; [|done|]; repeat constructor; by eexists.
    - intros i mi. destruct (face !! mi); cbn;
        [split; intros _; by eexists|split; intros [? [=]]]. }
  assert (Hcl : ∀ first : list OverlayOp,
            Forall is_Some
              (if negb (leftEyeOpen env) || negb (rightEyeOpen env)
               then [Some first; eye_polygon w h face RIGHT_EYE;
                     eye_polygon w h face LEFT_EYE]
               else [])
            ↔ Forall (λ i, is_Some (face !! i))
                (if negb (leftEyeOpen env) || negb (rightEyeOpen env)
                 then RIGHT_EYE ++ LEFT_EYE else [])).
  { intros first. destruct (_ || _); [|split; constructor].
    rewrite !Forall_cons, !eye_polygon_is_Some, Forall_app.
    split; [by intros (_ & ? & ? & _)|]. intros [? ?].
    split_and!; first [done|by eexists|constructor]. }
  rewrite Hsp, Hcl, !Forall_cons, !drawPt_is_Some.
  rewrite !Forall_nil. unfold MOUTH_UP, MOUTH_DOWN. intuition.
Qed.

Lemma hand_stmts_finish (hand : list Landmark) (w h sp : float) :
  length hand = 21%nat → Forall is_Some (hand_stmts hand w h sp).
Proof.
  intros H. hand21 hand H. unfold hand_stmts, connections, TIP.
  cbn [map imap app]. repeat (apply Forall_cons; split; [by eexists|]). constructor.
Qed.

Lemma hand_part_finish (hand : option (list Landmark)) (w h sp : float) :
  let stmts := match hand with
               | Some hand => if decide (length hand = 21%nat)
                              then hand_stmts hand w h sp else []
               | None => []
               end in
  Forall is_Some stmts
  ∧ Forall (λ st, ∀ ops, st = Some ops → Forall drawing ops) stmts.
Proof.
  destruct hand as [hand|]; cbn zeta; [|split; constructor].
  destruct (decide _); [|split; constructor].
  split; [by apply hand_stmts_finish|apply hand_stmts_drawing].
Qed.

Lemma drawOverlay_face (env : Render) (face : list Landmark) (w : float) :
  drawOverlay env (Some face) w
  = if decide (is_Some (mapM (λ i, face !! i) (overlay_reads env)))
    then Some (drawHUD env w) else None.
Proof.
  unfold drawOverlay. destruct (mapM _ _) as [ps|]; cbn.
  - rewrite decide_True; [done|by eexists].
  - rewrite decide_False; [done|]. by intros [? [=]].
Qed.

Lemma drawOverlay_panel (env : Render) (face : option (list Landmark)) (w : float)
    (panel : list CanvasOp) :
  drawOverlay env face w = Some panel → panel = drawHUD env w.
Proof.
  unfold drawOverlay. destruct face as [face|]; [|congruence].
  destruct (mapM _ _); cbn [mbind option_bind]; congruence.
Qed.

(** The shape of every run of the overlay: the opening calls, calls that
    only draw, and then, unless a face read raised, the status panel and
    the closing [restore]. *)
Lemma drawOverlay_calls_shape (env : Render) (face hand : option (list Landmark))
    (w h sinPulse : float) :
  ∃ mid,
    Forall drawing mid
    ∧ drawOverlay_calls env face hand w h sinPulse
      = match drawOverlay env face w with
        | Some panel =>
            ([ov ctx_save; ov_clearRect 0 0 w h] ++ mid ++ (ov <$> panel)
             ++ [ov ctx_restore], true)
        | None => ([ov ctx_save; ov_clearRect 0 0 w h] ++ mid, false)
        end.
Proof.
  unfold drawOverlay_calls.
  destruct (hand_part_finish hand w h sinPulse) as [Hfin Hdraw].
  cbn zeta in Hfin, Hdraw.
  set (hs := match hand with Some _ => _ | None => _ end) in *.
  assert (Htail : run_stmts (hs ++ [Some (ov <$> drawHUD env w); Some [ov ctx_restore]])
                  = ((run_stmts hs).1 ++ (ov <$> drawHUD env w) ++ [ov ctx_restore], true)).
  { by rewrite run_stmts_then. }
  rewrite run_stmts_then by (repeat constructor; by eexists).
  cbn [run_stmts fst snd].
  destruct face as [face|].
  - rewrite drawOverlay_face.
    pose proof (run_stmts_drawing _ (face_stmts_drawing env face w h sinPulse)) as Hface.
    destruct (decide (Forall is_Some (face_stmts env face w h sinPulse))) as [Hf|Hf].
    + rewrite run_stmts_then, Htail by done. cbn [fst snd].
      rewrite decide_True by (by eapply face_stmts_finish).
      exists ((run_stmts (face_stmts env face w h sinPulse)).1 ++ (run_stmts hs).1).
      split; [apply Forall_app; split; [done|by apply run_stmts_drawing]|].
      by rewrite <- !app_assoc.
    + rewrite run_stmts_stop by done. cbn [fst snd].
      rewrite decide_False by (by rewrite <- face_stmts_finish).
      by eexists.
  - cbn [app drawOverlay]. rewrite Htail. cbn [fst snd].
    exists (run_stmts hs).1. split; [by apply run_stmts_drawing|done].
Qed.

Lemma overlay_texts_app (a b : list OverlayOp) :
  overlay_texts (a ++ b) = overlay_texts a ++ overlay_texts b.
Proof. unfold overlay_texts, texts. by rewrite !omap_app. Qed.

Lemma nesting_app (a b : list OverlayOp) : nesting (a ++ b) = nesting a ++ nesting b.
Proof. apply omap_app. Qed.

Lemma drawing_quiet (ops : list OverlayOp) :
  Forall drawing ops → overlay_texts ops = [] ∧ nesting ops = [].
Proof.
  induction 1 as [|op ops Hop _ [IH1 IH2]]; [done|].
  change (op :: ops) with ([op] ++ ops).
  rewrite overlay_texts_app, nesting_app, IH1, IH2.
  by destruct op as [[]| | | | |].
Qed.

Lemma overlay_texts_ov (ops : list CanvasOp) : overlay_texts (ov <$> ops) = texts ops.
Proof.
  unfold overlay_texts. f_equal. induction ops as [|op ops IH]; [done|].
  cbn. by rewrite IH.
Qed.

Lemma nesting_drawHUD (env : Render) (w : float) :
  nesting (ov <$> drawHUD env w) = [true; false].
Proof. reflexivity. Qed.

(** X13: the overlay in full (the landmark dots, the mouth ring, the eye
    rings, the hand skeleton and fingertips, then the status panel) ends
    with the panel exactly when the short model [drawOverlay] says so,
    whatever the hand, and the only texts it writes are the panel's: a hand
    never makes the overlay raise, a face read out of range always does. *)
Theorem overlay_in_full (env : Render) (face hand : option (list Landmark))
    (w h sinPulse : float) :
  let calls := drawOverlay_calls env face hand w h sinPulse in
  drawOverlay env face w = (if calls.2 then Some (drawHUD env w) else None)
  ∧ overlay_texts calls.1 = texts (default [] (drawOverlay env face w)).
Proof.
  cbn zeta.
  destruct (drawOverlay_calls_shape env face hand w h sinPulse) as (mid & Hmid & ->).
  apply drawing_quiet in Hmid as [Hmid _].
  destruct (drawOverlay env face w) as [panel|] eqn:Hd; cbn [fst snd default].
  - rewrite (drawOverlay_panel env face w panel Hd). split; [done|].
    rewrite !overlay_texts_app, overlay_texts_ov, Hmid. cbn [app]. apply app_nil_r.
  - split; [done|]. by rewrite overlay_texts_app, Hmid.
Qed.

(** X14: the overlay's [save] and [restore] calls nest: a run that reaches
    the end makes [save, save, restore, restore] (its own pair around the
    panel's), and a run that raises on a face landmark has made its opening
    [save] and no [restore]. *)
Theorem overlay_nesting (env : Render) (face hand : option (list Landmark))
    (w h sinPulse : float) :
  let calls := drawOverlay_calls env face hand w h sinPulse in
  nesting calls.1 = if calls.2 then [true; true; false; false] else [true].
Proof.
  cbn zeta.
  destruct (drawOverlay_calls_shape env face hand w h sinPulse) as (mid & Hmid & ->).
  apply drawing_quiet in Hmid as [_ Hmid].
  destruct (drawOverlay env face w) as [panel|] eqn:Hd; cbn [fst snd].
  - rewrite (drawOverlay_panel env face w panel Hd).
    by rewrite !nesting_app, nesting_drawHUD, Hmid.
  - by rewrite nesting_app, Hmid.
Qed.

Lemma overlay_reads_in_range (env : Render) (face : list Landmark) :
  is_Some (mapM (λ i, face !! i) (overlay_reads env))
  ↔ ((if speaking env then 406 else 388) ≤ length face)%nat.
Proof.
  rewrite mapM_is_Some.
  change (is_Some ∘ λ i, face !! i) with (λ i, is_Some (face !! i)).
  rewrite (Forall_iff _ _ (λ i, (i < length face)%nat))
    by (intros i; apply lookup_lt_is_Some).
  unfold overlay_reads, RIGHT_EYE, LEFT_EYE, MOUTH_UP, MOUTH_DOWN, mouthIndices.
  destruct (speaking env), (negb (leftEyeOpen env) || negb (rightEyeOpen env));
    cbn [app]; rewrite !Forall_cons, Forall_nil; lia.
Qed.

(** X15: with a face in the frame, the overlay gets as far as the status
    panel exactly when the face has at least 388 landmarks, 406 when the
    render it belongs to is speaking (the mouth ring reads landmark 405):
    the overlay has no length check of its own. *)
Theorem overlay_needs (env : Render) (face : list Landmark) (w : float) :
  is_Some (drawOverlay env (Some face) w)
  ↔ ((if speaking env then 406 else 388) ≤ length face)%nat.
Proof.
  rewrite drawOverlay_face, <- overlay_reads_in_range.
  destruct (decide _) as [Hs|Hs].
  - split; [done|by eexists].
  - split; [by intros [? [=]]|done].
Qed.

Lemma vertices_imap (f : nat → nat) (l : list (float * float)) :
  vertices (imap (λ i, path_to (f i)) l) = l.
Proof.
  revert f. induction l as [|[x y] l IH]; intros f; [done|].
  cbn [imap]. unfold vertices in *. cbn [omap].
  unfold path_to at 1. destruct (decide _); cbn; f_equal; apply (IH (f ∘ S)).
Qed.

(** X16: the path [drawPolygon] traces goes through the points it is given,
    all of them and in their order, and nowhere else; so the red ring of a
    closed eye passes through the eye's six landmarks, mirrored onto the
    canvas. *)
Theorem polygon_vertices (w h : float) (face : list Landmark) (eye : list nat) :
  (∀ pts, vertices (drawPolygon pts) = pts)
  ∧ vertices <$> eye_polygon w h face eye
    = mapM (λ i, toCanvas w h <$> face !! i) eye.
Proof.
  assert (Hpoly : ∀ pts, vertices (drawPolygon pts) = pts).
  { intros pts. unfold drawPolygon. destruct pts as [|p pts]; [done|].
    rewrite decide_False by done.
    unfold vertices. rewrite !omap_app. cbn [omap app].
    rewrite app_nil_r. apply (vertices_imap id). }
  split; [done|]. unfold eye_polygon.
  destruct (mapM _ _) as [pts|]; [|done]. cbn. by rewrite Hpoly.
Qed.

(** *** The page: the panel, the chips and the theme button *)

Lemma theme_of_reachable (a : App) :
  reachable a → theme (state a) = "dark" ∨ theme (state a) = "light".
Proof.
  induction 1 as [|a e a' ops _ IH Hstep]; [by left|].
  destruct e as [now results|]; cbn in Hstep.
  - destruct (onResults _ _ _ _); by simplify_eq/=.
  - simplify_eq/=. destruct (String.eqb _ _); auto.
Qed.

Lemma after_forty_reachable : reachable after_forty.
Proof.
  unfold after_forty.
  destruct (run mount forty_frames) as [[a huds]|] eqn:Hrun.
  - exact (run_reachable forty_frames mount a huds reach_mount Hrun).
  - vm_compute in Hrun. discriminate Hrun.
Qed.

Lemma after_click_step : step after_forty ThemeClick = Some (after_click.1, after_click.2).
Proof. vm_compute. reflexivity. Qed.

Lemma after_click_reachable : reachable after_click.1.
Proof.
  exact (reach_step _ _ _ _ after_forty_reachable after_click_step).
Qed.

Lemma after_frame_step :
  step after_click.1 (Frame 40 open_eyed_results) = Some (after_frame.1, after_frame.2).
Proof. vm_compute. reflexivity. Qed.

(** X17: from the mount on, whatever happened before (frames, clicks on the
    theme button), the calls a frame makes for the status panel are those of
    the first render on a canvas 640 wide, dark theme and initial values,
    each and every call; and the panel is missing exactly when the frame
    carries a face of fewer than 388 landmarks. *)
Theorem mounted_panel (a a' : App) (now : Z) (results : Results)
    (ops : list CanvasOp) :
  reachable a →
  step a (Frame now results) = Some (a', ops) →
  ops = match faceLandmarks results with
        | Some face =>
            if decide (388 ≤ length face)%nat then drawHUD initialRender 640 else []
        | None => drawHUD initialRender 640
        end.
Proof.
  intros Ha Hstep. cbn in Hstep.
  rewrite (registered_first_render a Ha) in Hstep.
  destruct (onResults_returns initialRender (refs a) now results)
    as (b & r & l & s & _ & Hout).
  rewrite Hout in Hstep. simplify_eq/=.
  destruct (faceLandmarks results) as [face|]; [|done].
  rewrite drawOverlay_face.
  pose proof (overlay_reads_in_range initialRender face) as Hn.
  cbn [speaking initialRender] in Hn.
  destruct (decide (is_Some _)) as [Hs|Hs].
  - by rewrite decide_True by (by apply Hn).
  - by rewrite decide_False by (by rewrite <- Hn).
Qed.

Lemma mounted_panel_witness :
  reachable after_click.1
  ∧ theme (state after_click.1) = "light"
  ∧ after_frame.2 = drawHUD initialRender 640.
Proof.
  split; [exact after_click_reachable|]. split; [reflexivity|].
  exact (mounted_panel after_click.1 after_frame.1 40 open_eyed_results after_frame.2
           after_click_reachable after_frame_step).
Defined.

(** X18: the status chips of the page are up to date: after a frame with a
    face of at least 468 landmarks, the render shows the frame's finger
    count, the left-eye chip lit exactly when the eye aspect ratio of the
    left eye's landmarks exceeds 0.20, and the right-eye chip likewise for
    the right eye's landmarks. *)
Theorem chips_show_the_frame (a a' : App) (now : Z) (results : Results)
    (face : list Landmark) (ops : list CanvasOp) :
  step a (Frame now results) = Some (a', ops) →
  faceLandmarks results = Some face → (468 ≤ length face)%nat →
  take 3 (statusRow (state a'))
  = [StatusChip ("Fingers: " +:+ String_of (fingerCount_of results)) true;
     StatusChip "Left Eye" (computeEAR face LEFT_EYE >? 0.20);
     StatusChip "Right Eye" (computeEAR face RIGHT_EYE >? 0.20)].
Proof.
  intros Hstep Hface Hlen. cbn in Hstep.
  destruct (onResults_returns (registered a) (refs a) now results)
    as (b & r & l & s & Hsig & Hout).
  rewrite Hout in Hstep. rewrite Hface, faceSignals_face in Hsig by done.
  simplify_eq/=. reflexivity.
Qed.

Lemma chips_show_the_frame_witness :
  (468 ≤ length open_eyed_face)%nat
  ∧ take 3 (statusRow (state after_frame.1))
    = [StatusChip ("Fingers: " +:+ String_of (fingerCount_of open_eyed_results)) true;
       StatusChip "Left Eye" (computeEAR open_eyed_face LEFT_EYE >? 0.20);
       StatusChip "Right Eye" (computeEAR open_eyed_face RIGHT_EYE >? 0.20)].
Proof.
  assert (H : (468 ≤ length open_eyed_face)%nat) by (vm_compute; lia).
  exact (conj H (chips_show_the_frame after_click.1 after_frame.1 40 open_eyed_results
                   open_eyed_face after_frame.2 after_frame_step eq_refl H)).
Defined.

(** X19: a click on the theme button changes the theme, and the button's
    label with it, and nothing else: the five signals of the state, the
    chips that show them, the refs and the handler the detector holds are
    those of before, and nothing is drawn; a second click brings the
    component back to where it was; and the panel a frame draws on the
    canvas is the same before and after the click. *)
Theorem theme_round_trip (a a1 a2 : App) (ops1 ops2 : list CanvasOp) :
  reachable a →
  step a ThemeClick = Some (a1, ops1) → step a1 ThemeClick = Some (a2, ops2) →
  a2 = a
  ∧ theme (state a1) ≠ theme (state a)
  ∧ themeButton (state a1) ≠ themeButton (state a)
  ∧ fingerCount (state a1) = fingerCount (state a)
  ∧ leftEyeOpen (state a1) = leftEyeOpen (state a)
  ∧ rightEyeOpen (state a1) = rightEyeOpen (state a)
  ∧ speaking (state a1) = speaking (state a)
  ∧ moving (state a1) = moving (state a)
  ∧ statusRow (state a1) = statusRow (state a)
  ∧ refs a1 = refs a
  ∧ registered a1 = registered a
  ∧ ops1 = []
  ∧ ∀ now results,
      snd <$> step a1 (Frame now results) = snd <$> step a (Frame now results).
Proof.
  intros Ha H1 H2. pose proof (theme_of_reachable a Ha) as Hth.
  cbn in H1, H2. simplify_eq/=.
  destruct a as [[th fc le re sp mv] rf rg]. cbn in *.
  assert (Hdue : ∀ p c, effect_due p c = false) by reflexivity.
  unfold rerender. rewrite !Hdue. cbn [state refs registered].
  destruct Hth as [-> | ->]; cbn [toggle_theme theme String.eqb Ascii.eqb Bool.eqb
    fingerCount leftEyeOpen rightEyeOpen speaking moving]; split_and!; try done.
  all: intros now results; unfold step; cbn [registered refs];
    by destruct (onResults rg rf now results).
Qed.

Lemma theme_round_trip_witness :
  reachable after_forty
  ∧ after_two_clicks.1 = after_forty
  ∧ theme (state after_click.1) ≠ theme (state after_forty)
  ∧ themeButton (state after_click.1) ≠ themeButton (state after_forty)
  ∧ fingerCount (state after_click.1) = fingerCount (state after_forty)
  ∧ leftEyeOpen (state after_click.1) = leftEyeOpen (state after_forty)
  ∧ rightEyeOpen (state after_click.1) = rightEyeOpen (state after_forty)
  ∧ speaking (state after_click.1) = speaking (state after_forty)
  ∧ moving (state after_click.1) = moving (state after_forty)
  ∧ statusRow (state after_click.1) = statusRow (state after_forty)
  ∧ refs after_click.1 = refs after_forty
  ∧ registered after_click.1 = registered after_forty
  ∧ after_click.2 = []
  ∧ ∀ now results,
      snd <$> step after_click.1 (Frame now results)
      = snd <$> step after_forty (Frame now results).
Proof.
  split; [exact after_forty_reachable|].
  apply (theme_round_trip after_forty after_click.1 after_two_clicks.1
           after_click.2 after_two_clicks.2 after_forty_reachable after_click_step).
  vm_compute. reflexivity.
Defined.
